(** * CESIS multiview: camera session manager and Digest client

    A shallow embedding of the two stateful cores of the repository:

    - the PTZ proxy's HTTP Digest client ([parseDigestHeader], [md5],
      [authenticate], [fetchWithDigest]);
    - the streaming server's session handlers (the [start], [stop] and
      [status] routes over the [activeStreams] map, and the process
      observers attached by [start]).

    JavaScript strings are modelled by [string]: sequences of code units
    below 256.  Hashing encodes them as UTF-8, as [Hash.update] does. *)

From Stdlib Require Import ZArith Ascii String List Lia.
From stdpp Require Import gmap strings list pretty.
From Equations Require Import Equations.

Local Open Scope string_scope.

(** ** Code units and bytes *)

Module Bytes.

Local Open Scope Z_scope.

Definition code (c : ascii) : Z := Z.of_N (N_of_ascii c).

Definition units (s : string) : list Z := map code (list_ascii_of_string s).

(** UTF-8 of one code unit below 256: one byte up to 127, two above. *)
Definition utf8_unit (u : Z) : list Z :=
  if u <? 128 then [u]
  else [Z.lor 192 (Z.shiftr u 6); Z.lor 128 (Z.land u 63)].

Definition utf8 (s : string) : list Z := flat_map utf8_unit (units s).

Definition hex_digit (d : Z) : ascii :=
  ascii_of_N (Z.to_N (if d <? 10 then 48 + d else 87 + d)).

(** [Buffer.toString("hex")]: two lowercase digits per byte. *)
Fixpoint hex (bs : list Z) : string :=
  match bs with
  | [] => EmptyString
  | b :: bs' =>
      String (hex_digit (Z.shiftr b 4)) (String (hex_digit (Z.land b 15)) (hex bs'))
  end.

(** The bytes of a 32-bit word, least significant first. *)
Definition le32 (w : Z) : list Z :=
  [Z.land w 255; Z.land (Z.shiftr w 8) 255;
   Z.land (Z.shiftr w 16) 255; Z.land (Z.shiftr w 24) 255].

Definition be32 (w : Z) : list Z := rev (le32 w).

Definition word_le (bs : list Z) : Z :=
  fold_right (fun b acc => Z.lor b (Z.shiftl acc 8)) 0 bs.

Definition word_be (bs : list Z) : Z :=
  fold_left (fun acc b => Z.lor (Z.shiftl acc 8) b) bs 0.

(** Cut a byte sequence into consecutive groups of [n] bytes; [k] bounds
    the number of groups. *)
Fixpoint chunks (k n : nat) (bs : list Z) : list (list Z) :=
  match k with
  | O => []
  | S k' =>
      match bs with
      | [] => []
      | _ => firstn n bs :: chunks k' n (skipn n bs)
      end
  end.

Definition blocks (n : nat) (bs : list Z) : list (list Z) :=
  chunks (S (List.length bs)) n bs.

Definition wrap32 (x : Z) : Z := x mod 4294967296.
Definition add32 (x y : Z) : Z := wrap32 (x + y).
Definition not32 (x : Z) : Z := Z.lxor x 4294967295.
Definition rotl32 (x n : Z) : Z :=
  Z.lor (wrap32 (Z.shiftl x n)) (Z.shiftr x (32 - n)).
Definition rotr32 (x n : Z) : Z := rotl32 x (32 - n).

(** Padding shared by MD5 and SHA-256: a 1 bit, zeros up to 56 mod 64,
    then the bit length on 8 bytes (written by [len64]). *)
Definition pad (len64 : Z -> list Z) (msg : list Z) : list Z :=
  let n := Z.of_nat (List.length msg) in
  let zeros := Z.to_nat ((55 - n) mod 64) in
  msg ++ [128] ++ repeat 0 zeros ++ len64 (8 * n).

End Bytes.

(** ** MD5 (RFC 1321), what [crypto.createHash("md5")] computes *)

Module MD5.

Import Bytes.
Local Open Scope Z_scope.

Definition K : list Z :=
  [ 0xd76aa478; 0xe8c7b756; 0x242070db; 0xc1bdceee;
    0xf57c0faf; 0x4787c62a; 0xa8304613; 0xfd469501;
    0x698098d8; 0x8b44f7af; 0xffff5bb1; 0x895cd7be;
    0x6b901122; 0xfd987193; 0xa679438e; 0x49b40821;
    0xf61e2562; 0xc040b340; 0x265e5a51; 0xe9b6c7aa;
    0xd62f105d; 0x02441453; 0xd8a1e681; 0xe7d3fbc8;
    0x21e1cde6; 0xc33707d6; 0xf4d50d87; 0x455a14ed;
    0xa9e3e905; 0xfcefa3f8; 0x676f02d9; 0x8d2a4c8a;
    0xfffa3942; 0x8771f681; 0x6d9d6122; 0xfde5380c;
    0xa4beea44; 0x4bdecfa9; 0xf6bb4b60; 0xbebfbc70;
    0x289b7ec6; 0xeaa127fa; 0xd4ef3085; 0x04881d05;
    0xd9d4d039; 0xe6db99e5; 0x1fa27cf8; 0xc4ac5665;
    0xf4292244; 0x432aff97; 0xab9423a7; 0xfc93a039;
    0x655b59c3; 0x8f0ccc92; 0xffeff47d; 0x85845dd1;
    0x6fa87e4f; 0xfe2ce6e0; 0xa3014314; 0x4e0811a1;
    0xf7537e82; 0xbd3af235; 0x2ad7d2bb; 0xeb86d391 ].

Definition shifts : list Z :=
  [7; 12; 17; 22; 7; 12; 17; 22; 7; 12; 17; 22; 7; 12; 17; 22;
   5; 9; 14; 20; 5; 9; 14; 20; 5; 9; 14; 20; 5; 9; 14; 20;
   4; 11; 16; 23; 4; 11; 16; 23; 4; 11; 16; 23; 4; 11; 16; 23;
   6; 10; 15; 21; 6; 10; 15; 21; 6; 10; 15; 21; 6; 10; 15; 21].

Record regs := Regs { rA : Z; rB : Z; rC : Z; rD : Z }.

Definition init : regs :=
  Regs 0x67452301 0xefcdab89 0x98badcfe 0x10325476.

(** The round function and the message word index of operation [i]. *)
Definition mix (i b c d : Z) : Z * Z :=
  if i <? 16 then (Z.lor (Z.land b c) (Z.land (not32 b) d), i)
  else if i <? 32 then (Z.lor (Z.land d b) (Z.land (not32 d) c), (5 * i + 1) mod 16)
  else if i <? 48 then (Z.lxor (Z.lxor b c) d, (3 * i + 5) mod 16)
  else (Z.lxor c (Z.lor b (not32 d)), (7 * i) mod 16).

Definition operation (m : list Z) (r : regs) (i : nat) : regs :=
  let '(f, g) := mix (Z.of_nat i) (rB r) (rC r) (rD r) in
  let f' := add32 (add32 (add32 f (rA r)) (nth i K 0)) (nth (Z.to_nat g) m 0) in
  Regs (rD r) (add32 (rB r) (rotl32 f' (nth i shifts 0))) (rB r) (rC r).

Definition compress (r : regs) (block : list Z) : regs :=
  let m := map word_le (chunks 16 4 block) in
  let r' := fold_left (operation m) (seq 0 64) r in
  Regs (add32 (rA r) (rA r')) (add32 (rB r) (rB r'))
       (add32 (rC r) (rC r')) (add32 (rD r) (rD r')).

Definition len64 (bits : Z) : list Z :=
  le32 (wrap32 bits) ++ le32 (wrap32 (Z.shiftr bits 32)).

Definition digest (msg : list Z) : list Z :=
  let r := fold_left compress (blocks 64 (pad len64 msg)) init in
  le32 (rA r) ++ le32 (rB r) ++ le32 (rC r) ++ le32 (rD r).

End MD5.

(** [md5(value)] of the proxy: hex of the MD5 of the UTF-8 of [value]. *)
Definition md5 (value : string) : string :=
  Bytes.hex (MD5.digest (Bytes.utf8 value)).

(** ** JavaScript string primitives used by the proxy *)

Module JS.

Definition dquote : ascii := "034"%char.
Definition comma : ascii := ","%char.
Definition quoted (s : string) : string :=
  String dquote (s ++ String dquote EmptyString).

(** [\w] without the unicode or ignore-case flags. *)
Definition is_word (c : ascii) : bool :=
  let n := nat_of_ascii c in
  (((48 <=? n) && (n <=? 57)) || ((65 <=? n) && (n <=? 90))
   || ((97 <=? n) && (n <=? 122)) || (n =? 95))%nat.

(** White space and line terminators below 256, as [trim] strips them. *)
Definition is_space (c : ascii) : bool :=
  let n := nat_of_ascii c in
  (((9 <=? n) && (n <=? 13)) || (n =? 32) || (n =? 160))%nat.

Definition is_not (x c : ascii) : bool := negb (Ascii.eqb c x).

(** The longest prefix whose code units satisfy [p], and what follows. *)
Fixpoint span (p : ascii -> bool) (s : string) : string * string :=
  match s with
  | EmptyString => (EmptyString, EmptyString)
  | String c s' =>
      if p c then let '(a, b) := span p s' in (String c a, b)
      else (EmptyString, s)
  end.

Fixpoint drop_while (p : ascii -> bool) (s : string) : string :=
  match s with
  | EmptyString => EmptyString
  | String c s' => if p c then drop_while p s' else s
  end.

Fixpoint rev_append (s acc : string) : string :=
  match s with
  | EmptyString => acc
  | String c s' => rev_append s' (String c acc)
  end.

Definition reverse (s : string) : string := rev_append s EmptyString.

Definition trim (s : string) : string :=
  reverse (drop_while is_space (reverse (drop_while is_space s))).

Definition startsWith (s p : string) : bool := String.prefix p s.

Definition endsWith (s p : string) : bool :=
  String.prefix (reverse p) (reverse s).

(** [s.slice(from, to)]; a negative index counts from the end. *)
Definition slice (s : string) (from to : Z) : string :=
  let len := Z.of_nat (String.length s) in
  let clamp i := if (i <? 0)%Z then Z.max (len + i) 0 else Z.min i len in
  let a := clamp from in
  let b := clamp to in
  String.substring (Z.to_nat a) (Z.to_nat (b - a)) s.

Definition slice_from (s : string) (from : Z) : string :=
  slice s from (Z.of_nat (String.length s)).

(** [!s] for a string that may be [null] or [undefined]. *)
Definition falsy (s : option string) : bool :=
  match s with
  | None => true
  | Some EmptyString => true
  | Some _ => false
  end.

(** A value interpolated in a template literal. *)
Definition interpolate (v : option string) : string :=
  match v with
  | Some s => s
  | None => "undefined"
  end.

(** [obj[key] = value] on an object literal: the assignment to
    [__proto__] of a string goes to the accessor of [Object.prototype],
    which ignores it, and creates no property. *)
Definition obj_set (obj : gmap string string) (key value : string)
  : gmap string string :=
  if String.eqb key "__proto__" then obj else <[key := value]> obj.

End JS.

(** ** Exceptions

    The proxy throws [Error] objects that differ by their message only;
    the two kinds of the Digest client are named after the error kinds
    they stand for. *)

Inductive result (A : Type) : Type :=
| Ok (a : A)
| Throw (message : string).
Arguments Ok {A} a.
Arguments Throw {A} message.

Definition ProtocolError : string :=
  "Camera did not return a Digest challenge".

Definition MissingCredentials : string :=
  "Missing username or password for digest authentication".

(** ** The challenge tokenizer

    The global pattern of [parseDigestHeader] reads: group 1 is [\w+],
    then an equals sign, then group 2, which is either a double quote,
    one or more units other than a double quote and a double quote, or
    else one or more units other than a comma.

    The pattern has no anchor and no look-around, so a search from
    [lastIndex] is a search in the suffix that starts there; the loop
    below carries that suffix. *)

Module Regex.

Import JS.

(** The second group at the head of [s]: the quoted alternative first,
    then a non-empty run without comma.  Each class is followed by a
    unit outside it (or by the end), so the greedy run is the only
    length that can match. *)
Definition value_at (s : string) : option (string * string) :=
  let unquoted :=
    let '(v, rest) := span (is_not comma) s in
    match v with
    | EmptyString => None
    | String _ _ => Some (v, rest)
    end in
  match s with
  | String q s1 =>
      if Ascii.eqb q dquote then
        let '(v, s2) := span (is_not dquote) s1 in
        match v, s2 with
        | String _ _, String _ rest => Some (quoted v, rest)
        | _, _ => unquoted
        end
      else unquoted
  | EmptyString => unquoted
  end.

(** A match that starts at the head of [s]: groups 1 and 2 and the
    suffix after the match. *)
Definition match_at (s : string) : option (string * string * string) :=
  let '(key, s1) := span is_word s in
  match key, s1 with
  | String _ _, String eq s2 =>
      if Ascii.eqb eq "="%char then
        match value_at s2 with
        | Some (v, rest) => Some (key, v, rest)
        | None => None
        end
      else None
  | _, _ => None
  end.

(** [regex.exec]: the leftmost match. *)
Fixpoint exec (s : string) : option (string * string * string) :=
  match match_at s with
  | Some m => Some m
  | None =>
      match s with
      | EmptyString => None
      | String _ s' => exec s'
      end
  end.

End Regex.

(** Every match consumes at least one unit, which is what makes the
    [while] loop of [parseDigestHeader] stop. *)

Lemma span_length p s a b :
  JS.span p s = (a, b) -> String.length s = String.length a + String.length b.
Proof.
  revert a b. induction s as [|c s IH]; intros a b; simpl.
  - intros [= <- <-]. reflexivity.
  - destruct (p c).
    + destruct (JS.span p s) as [a' b'] eqn:E. intros [= <- <-].
      simpl. f_equal. apply IH. reflexivity.
    + intros [= <- <-]. reflexivity.
Qed.

Lemma value_at_shorter s v rest :
  Regex.value_at s = Some (v, rest) -> String.length rest < String.length s.
Proof.
  unfold Regex.value_at.
  assert (U : (let '(v0, rest0) := JS.span (JS.is_not JS.comma) s in
               match v0 with
               | EmptyString => None
               | String _ _ => Some (v0, rest0)
               end) = Some (v, rest) -> String.length rest < String.length s).
  { destruct (JS.span (JS.is_not JS.comma) s) as [v0 r0] eqn:E.
    apply span_length in E. destruct v0; [discriminate|].
    intros [= <- <-]. simpl in E. lia. }
  destruct s as [|q s1]; [exact U|].
  destruct (Ascii.eqb q JS.dquote); [|exact U].
  destruct (JS.span (JS.is_not JS.dquote) s1) as [v1 s2] eqn:E.
  apply span_length in E.
  destruct v1 as [|c1 v1]; [exact U|].
  destruct s2 as [|c2 s2]; [exact U|].
  intros [= <- <-]. simpl in *. lia.
Qed.

Lemma match_at_shorter s key v rest :
  Regex.match_at s = Some (key, v, rest) ->
  String.length rest < String.length s.
Proof.
  unfold Regex.match_at.
  destruct (JS.span JS.is_word s) as [k s1] eqn:E.
  apply span_length in E.
  destruct k as [|c k]; [discriminate|].
  destruct s1 as [|e s2]; [discriminate|].
  destruct (Ascii.eqb e "="%char); [|discriminate].
  destruct (Regex.value_at s2) as [[v' r']|] eqn:V; [|discriminate].
  apply value_at_shorter in V.
  intros [= <- <- <-]. simpl in *. lia.
Qed.

Lemma exec_shorter s key v rest :
  Regex.exec s = Some (key, v, rest) ->
  String.length rest < String.length s.
Proof.
  induction s as [|c s IH]; simpl.
  - discriminate.
  - destruct (Regex.match_at (String c s)) as [m|] eqn:M.
    + intros [= ->]. apply match_at_shorter in M. exact M.
    + intros H. apply IH in H. simpl. lia.
Qed.

(** ** The Digest client *)

Definition inspect {A : Type} (a : A) : {b : A | a = b} := exist _ a eq_refl.

(** The body of the [while] loop: trim group 2, strip one pair of
    surrounding quotes, and store it under group 1. *)
Definition store_param (params : gmap string string) (key raw : string)
  : gmap string string :=
  let value := JS.trim raw in
  let value :=
    if JS.startsWith value (String JS.dquote "")
       && JS.endsWith value (String JS.dquote "")
    then JS.slice value 1 (-1)
    else value in
  JS.obj_set params key value.

(** The [while] loop over [regex.exec(challenge)], from the empty
    object. *)
Equations? collect (challenge : string) (params : gmap string string)
  : gmap string string by wf (String.length challenge) lt :=
  collect challenge params with inspect (Regex.exec challenge) := {
    | exist _ (Some (key, raw, rest)) _ =>
        collect rest (store_param params key raw)
    | exist _ None _ => params }.
Proof. eapply exec_shorter; eassumption. Qed.

(** [parseDigestHeader(header)]; [header] is [null] when the response
    has no such header. *)
Definition parseDigestHeader (header : option string)
  : result (gmap string string) :=
  match header with
  | None => Throw ProtocolError
  | Some h =>
      if JS.falsy header || negb (JS.startsWith h "Digest ")
      then Throw ProtocolError
      else
        let challenge := JS.slice_from h 7 in
        Ok (collect challenge ∅)
  end.

(** *** Requests, responses and the world around one call

    Header names are kept in lower case, as the [Headers] class stores
    them.  [fetchOptions] is whatever remains of the options once
    [method], [headers], [username] and [password] are taken out (the
    body, for one). *)

Record Request := mkRequest {
  req_url : string;
  req_options : gmap string string;
  req_method : string;
  req_headers : option (gmap string string)
}.

Record Response := mkResponse {
  status : Z;
  headers : gmap string string;
  body : string
}.

(** The target as [new URL(targetUrl)] reads it: the string handed to
    [fetch], and the path and query components of its URL record. *)
Record Url := mkUrl {
  href : string;
  pathname : string;
  search : string
}.

Record Options := mkOptions {
  opt_method : option string;
  opt_headers : option (gmap string string);
  opt_username : option string;
  opt_password : option string;
  fetchOptions : gmap string string
}.

(** The network answers a request knowing the requests before it, or
    rejects; [sent] logs the requests issued, oldest first.  [random] is
    the byte source behind [crypto.randomBytes], read from [cursor]. *)
Record World := mkWorld {
  network : list Request -> Request -> result Response;
  sent : list Request;
  random : nat -> Z;
  cursor : nat
}.

(** A computation of the client: it may throw, and it changes the
    world. *)
Definition M (A : Type) : Type := World -> result A * World.

Definition ret {A : Type} (a : A) : M A := fun w => (Ok a, w).

Definition throw {A : Type} (message : string) : M A :=
  fun w => (Throw message, w).

Definition bind {A B : Type} (c : M A) (k : A -> M B) : M B :=
  fun w =>
    match c w with
    | (Ok a, w') => k a w'
    | (Throw message, w') => (Throw message, w')
    end.

Notation "'let*' x ':=' c 'in' k" := (bind c (fun x => k))
  (at level 10, x name, c at level 100, k at level 200).

Definition lift {A : Type} (r : result A) : M A := fun w => (r, w).

(** [await fetch(url, init)] *)
Definition fetch (r : Request) : M Response :=
  fun w =>
    (network w (sent w) r,
     mkWorld (network w) (sent w ++ [r]) (random w) (cursor w)).

(** [crypto.randomBytes(n)] *)
Definition randomBytes (n : nat) : M (list Z) :=
  fun w =>
    (Ok (map (fun i => (random w i) mod 256)%Z (seq (cursor w) n)),
     mkWorld (network w) (sent w) (random w) (cursor w + n)).

(** [authenticate(params, method, digestUri, username, password)];
    a parameter the challenge lacks reads as [undefined]. *)
Definition authenticate (params : gmap string string)
    (method digestUri : string) (username password : option string)
  : M string :=
  if JS.falsy username || JS.falsy password then throw MissingCredentials
  else
    let username := JS.interpolate username in
    let password := JS.interpolate password in
    let realm := JS.interpolate (params !! "realm") in
    let nonce := JS.interpolate (params !! "nonce") in
    let qop := JS.interpolate (params !! "qop") in
    let nc := "00000001" in
    let* bytes := randomBytes 8 in
    let cnonce := Bytes.hex bytes in
    let ha1 := md5 (username ++ ":" ++ realm ++ ":" ++ password) in
    let ha2 := md5 (method ++ ":" ++ digestUri) in
    let response :=
      md5 (ha1 ++ ":" ++ nonce ++ ":" ++ nc ++ ":" ++ cnonce ++ ":" ++ qop
           ++ ":" ++ ha2) in
    ret ("Digest username=" ++ JS.quoted username
         ++ ", realm=" ++ JS.quoted realm
         ++ ", nonce=" ++ JS.quoted nonce ++ ", "
         ++ "uri=" ++ JS.quoted digestUri
         ++ ", algorithm=MD5, response=" ++ JS.quoted response
         ++ ", qop=" ++ qop ++ ", nc=" ++ nc
         ++ ", cnonce=" ++ JS.quoted cnonce).

(** [fetchWithDigest(targetUrl, options)].  [new URL(targetUrl)]
    cannot throw where it stands: [fetch] has accepted the same string. *)
Definition fetchWithDigest (targetUrl : Url) (options : Options)
  : M Response :=
  let method := default "GET" (opt_method options) in
  let headers0 := opt_headers options in
  let* initialResponse :=
    fetch (mkRequest (href targetUrl) (fetchOptions options) method headers0) in
  if negb (status initialResponse =? 401)%Z then ret initialResponse
  else
    let header := headers initialResponse !! "www-authenticate" in
    let* params := lift (parseDigestHeader header) in
    let digestUri := pathname targetUrl ++ search targetUrl in
    let* authHeader :=
      authenticate params method digestUri
        (opt_username options) (opt_password options) in
    let nextHeaders := <["authorization" := authHeader]> (default ∅ headers0) in
    fetch (mkRequest (href targetUrl) (fetchOptions options) method
             (Some nextHeaders)).

(** ** The streaming server

    Every route handler of the server is synchronous: it runs to its
    end before the event loop delivers anything else.  A handler is a
    function from the server state to a reply and the next state; the
    event loop is a fold over the events it delivers.  Failures of the
    file system and console output are left out. *)

Module Stream.

(** One entry of [streams.json]. *)
Record StreamConfig := mkStream {
  id : string;
  name : string;
  url : string;
  group : string
}.

(** The closures that [start] attaches to a child process, each with the
    [cameraId] it captured. *)
Inductive Callback :=
| LogData (cameraId : string)
| LogErrorAndDelete (cameraId : string)
| LogExitAndDelete (cameraId : string).

(** A [ChildProcess] object: what it was spawned with, the listeners
    attached to it and the signals sent to it. *)
Record ChildProcess := mkProcess {
  command : string;
  args : list string;
  listeners : list (string * Callback);
  signals : list string
}.

(** Calls into [fs], [child_process] and the [activeStreams] map, in the
    order a handler makes them.  Processes are named by their rank in
    [processes]. *)
Inductive Effect :=
| MapHas (cameraId : string)
| MapGet (cameraId : string)
| MapSet (cameraId : string) (process : nat)
| MapDelete (cameraId : string)
| ExistsSync (path : string)
| MkdirSync (path : string)
| Spawn (process : nat)
| On (process : nat) (event : string)
| Kill (process : nat) (signal : string).

Record Server := mkServer {
  activeStreams : gmap string nat;
  processes : list ChildProcess;
  directories : gset string;
  trace : list Effect
}.

(** The replies are flat JSON objects. *)
Inductive Json :=
| JNull
| JBool (b : bool)
| JString (s : string).

Record Reply := mkReply {
  code : nat;
  json : list (string * Json)
}.

Definition Handler (A : Type) : Type := Server -> A * Server.

Definition pure {A : Type} (a : A) : Handler A := fun s => (a, s).

Definition seq_ {A B : Type} (c : Handler A) (k : A -> Handler B) : Handler B :=
  fun s => let '(a, s') := c s in k a s'.

Notation "'let+' x ':=' c 'in' k" := (seq_ c (fun x => k))
  (at level 10, x name, c at level 100, k at level 200).
Notation "c ';;' k" := (seq_ c (fun _ => k))
  (at level 100, k at level 200, right associativity).

Definition effect (e : Effect) (s : Server) : Server :=
  mkServer (activeStreams s) (processes s) (directories s) (trace s ++ [e]).

(** [activeStreams.has], [.get], [.set] and [.delete] *)
Definition map_has (cameraId : string) : Handler bool :=
  fun s =>
    (bool_decide (is_Some (activeStreams s !! cameraId)),
     effect (MapHas cameraId) s).

Definition map_get (cameraId : string) : Handler (option nat) :=
  fun s => (activeStreams s !! cameraId, effect (MapGet cameraId) s).

Definition map_set (cameraId : string) (process : nat) : Handler unit :=
  fun s =>
    (tt, effect (MapSet cameraId process)
           (mkServer (<[cameraId := process]> (activeStreams s))
                     (processes s) (directories s) (trace s))).

Definition map_delete (cameraId : string) : Handler unit :=
  fun s =>
    (tt, effect (MapDelete cameraId)
           (mkServer (delete cameraId (activeStreams s))
                     (processes s) (directories s) (trace s))).

(** [fs.existsSync] and [fs.mkdirSync(_, { recursive: true })] *)
Definition existsSync (path : string) : Handler bool :=
  fun s => (bool_decide (path ∈ directories s), effect (ExistsSync path) s).

Definition mkdirSync (path : string) : Handler unit :=
  fun s =>
    (tt, effect (MkdirSync path)
           (mkServer (activeStreams s) (processes s)
                     ({[path]} ∪ directories s) (trace s))).

(** [spawn(command, args)]: a new process object, with no listener yet. *)
Definition spawn (command : string) (args : list string) : Handler nat :=
  fun s =>
    let process := length (processes s) in
    (process,
     effect (Spawn process)
       (mkServer (activeStreams s)
                 (processes s ++ [mkProcess command args [] []])
                 (directories s) (trace s))).

Definition update_process (process : nat) (f : ChildProcess -> ChildProcess)
  : Server -> Server :=
  fun s =>
    mkServer (activeStreams s) (alter f process (processes s))
             (directories s) (trace s).

(** [emitter.on(event, callback)] *)
Definition on (process : nat) (event : string) (callback : Callback)
  : Handler unit :=
  fun s =>
    (tt, effect (On process event)
           (update_process process
              (fun p => mkProcess (command p) (args p)
                          (listeners p ++ [(event, callback)]) (signals p))
              s)).

(** [process.kill(signal)] *)
Definition kill (process : nat) (signal : string) : Handler unit :=
  fun s =>
    (tt, effect (Kill process signal)
           (update_process process
              (fun p => mkProcess (command p) (args p) (listeners p)
                          (signals p ++ [signal]))
              s)).

(** [path.join] of two segments already in normal form. *)
Definition path_join (a b : string) : string := a ++ "/" ++ b.

Definition hlsDir : string := "hls".

Definition hlsUrl (cameraId : string) : string :=
  "/hls/" ++ cameraId ++ "/stream.m3u8".

Definition ffmpeg_args (source cameraDir : string) : list string :=
  [ "-rtsp_transport"; "tcp";
    "-analyzeduration"; "1000000";
    "-probesize"; "1000000";
    "-fflags"; "nobuffer";
    "-flags"; "low_delay";
    "-i"; source;
    "-c:v"; "libx264";
    "-preset"; "ultrafast";
    "-tune"; "zerolatency";
    "-vf"; "scale=480:270";
    "-b:v"; "400k";
    "-maxrate"; "500k";
    "-bufsize"; "500k";
    "-r"; "12";
    "-g"; "24";
    "-keyint_min"; "24";
    "-sc_threshold"; "0";
    "-profile:v"; "baseline";
    "-level"; "3.0";
    "-c:a"; "aac";
    "-b:a"; "32k";
    "-ar"; "22050";
    "-ac"; "1";
    "-f"; "hls";
    "-hls_time"; "2";
    "-hls_list_size"; "3";
    "-hls_flags"; "delete_segments+omit_endlist+split_by_time";
    "-hls_segment_type"; "mpegts";
    "-start_number"; "0";
    "-hls_allow_cache"; "0";
    "-hls_playlist_type"; "event";
    "-hls_segment_filename"; path_join cameraDir "segment%d.ts";
    path_join cameraDir "stream.m3u8" ].

Definition NotFound : Reply :=
  mkReply 404 [("error", JString "Camera not found")].

Definition NotActive : Reply :=
  mkReply 404 [("error", JString "Stream not active")].

Definition started (cameraId : string) : Reply :=
  mkReply 200 [("status", JString "started");
               ("hlsUrl", JString (hlsUrl cameraId))].

Definition already_running (cameraId : string) : Reply :=
  mkReply 200 [("status", JString "already_running");
               ("hlsUrl", JString (hlsUrl cameraId))].

Definition stopped : Reply :=
  mkReply 200 [("status", JString "stopped")].

Section Routes.

(** [streamsConfig.streams], read once when the server starts. *)
Variable streams : list StreamConfig.

(** [GET /api/stream/start/:cameraId] *)
Definition start (cameraId : string) : Handler Reply :=
  match find (fun s => String.eqb (id s) cameraId) streams with
  | None => pure NotFound
  | Some stream =>
      let+ running := map_has cameraId in
      if running then pure (already_running cameraId)
      else
        let cameraDir := path_join hlsDir cameraId in
        let+ present := existsSync cameraDir in
        (if present then pure tt else mkdirSync cameraDir) ;;
        let+ ffmpeg := spawn "ffmpeg" (ffmpeg_args (url stream) cameraDir) in
        on ffmpeg "stderr.data" (LogData cameraId) ;;
        on ffmpeg "error" (LogErrorAndDelete cameraId) ;;
        on ffmpeg "close" (LogExitAndDelete cameraId) ;;
        map_set cameraId ffmpeg ;;
        pure (started cameraId)
  end.

(** [GET /api/stream/stop/:cameraId] *)
Definition stop (cameraId : string) : Handler Reply :=
  let+ ffmpeg := map_get cameraId in
  match ffmpeg with
  | None => pure NotActive
  | Some ffmpeg =>
      kill ffmpeg "SIGTERM" ;;
      map_delete cameraId ;;
      pure stopped
  end.

(** [GET /api/stream/status/:cameraId] *)
Definition status (cameraId : string) : Handler Reply :=
  let+ isActive := map_has cameraId in
  pure (mkReply 200
          [("active", JBool isActive);
           ("hlsUrl", if isActive then JString (hlsUrl cameraId) else JNull)]).

(** What a listener does when its event fires; console output is left
    out. *)
Definition call (callback : Callback) : Handler unit :=
  match callback with
  | LogData _ => pure tt
  | LogErrorAndDelete cameraId => map_delete cameraId
  | LogExitAndDelete cameraId => map_delete cameraId
  end.

Fixpoint call_all (callbacks : list Callback) : Handler unit :=
  match callbacks with
  | [] => pure tt
  | c :: cs => call c ;; call_all cs
  end.

(** The process [process] emits [event]: its listeners for that event
    run, in the order they were attached. *)
Definition emit (process : nat) (event : string) : Handler unit :=
  fun s =>
    match processes s !! process with
    | None => (tt, s)
    | Some p =>
        call_all
          (map snd
             (List.filter (fun l => String.eqb (fst l) event) (listeners p)))
          s
    end.

(** What the event loop can deliver to the server. *)
Inductive Event :=
| GetStart (cameraId : string)
| GetStop (cameraId : string)
| GetStatus (cameraId : string)
| Emit (process : nat) (event : string).

Definition deliver (e : Event) : Handler (option Reply) :=
  match e with
  | GetStart cameraId => let+ r := start cameraId in pure (Some r)
  | GetStop cameraId => let+ r := stop cameraId in pure (Some r)
  | GetStatus cameraId => let+ r := status cameraId in pure (Some r)
  | Emit process event => emit process event ;; pure None
  end.

Fixpoint run (events : list Event) : Handler (list (option Reply)) :=
  match events with
  | [] => pure []
  | e :: es =>
      let+ r := deliver e in
      let+ rs := run es in
      pure (r :: rs)
  end.

End Routes.

(** The server once it listens: no session, no process, the [hls]
    directory in place. *)
Definition boot : Server := mkServer ∅ [] {[hlsDir]} [].

(** *** The headers middleware

    It sets three CORS headers on every response and, from the request
    path, the content type of playlists and segments. *)

Definition hls_type (path : string) : option string :=
  if JS.endsWith path ".m3u8" then Some "application/vnd.apple.mpegurl"
  else if JS.endsWith path ".ts" then Some "video/mp2t"
  else None.

Definition hls_headers (path : string) : list (string * string) :=
  [("Access-Control-Allow-Origin", "*");
   ("Access-Control-Allow-Methods", "GET, OPTIONS");
   ("Access-Control-Allow-Headers", "Content-Type")]
  ++ match hls_type path with
     | Some type => [("Content-Type", type)]
     | None => []
     end.

(** *** The entries of [activeStreams] in iteration order

    A [Map] iterates in insertion order, which the finite map of the
    state does not keep.  The order is recovered from the calls made on
    the map since the server started: [set] on a new key appends, [set]
    on a present key updates in place, [delete] removes. *)

Fixpoint set_entry (key : string) (value : nat) (l : list (string * nat))
  : list (string * nat) :=
  match l with
  | [] => [(key, value)]
  | (k, v) :: rest =>
      if String.eqb k key then (key, value) :: rest
      else (k, v) :: set_entry key value rest
  end.

Definition delete_entry (key : string) (l : list (string * nat))
  : list (string * nat) :=
  List.filter (fun e => negb (String.eqb (fst e) key)) l.

Definition replay (l : list (string * nat)) (e : Effect)
  : list (string * nat) :=
  match e with
  | MapSet key value => set_entry key value l
  | MapDelete key => delete_entry key l
  | _ => l
  end.

Definition entries (s : Server) : list (string * nat) :=
  fold_left replay (trace s) [].

(** [GET /api/health] *)
Record Health := mkHealth {
  health_status : string;
  health_activeStreams : nat;
  health_streams : list string
}.

Definition health : Handler Health :=
  fun s => (mkHealth "ok" (size (activeStreams s)) (map fst (entries s)), s).

(** The [SIGINT] handler: a SIGTERM to the process of every entry, then
    [process.exit(0)]; the result is the exit code. *)
Fixpoint kill_all (l : list (string * nat)) : Handler unit :=
  match l with
  | [] => pure tt
  | (_, ffmpeg) :: rest => kill ffmpeg "SIGTERM" ;; kill_all rest
  end.

Definition sigint : Handler nat :=
  fun s => (kill_all (entries s) ;; pure 0) s.

End Stream.

(** ** The routes of the PTZ proxy

    The proxy reads its credentials from the environment and builds
    the camera URL from the query of the request.  The two components
    that [new URL] computes from that string are parameters of the
    model: [url_pathname] and [url_search]. *)

Module Proxy.

(** What a route sends: [res.json] of an error, [res.send] of a text,
    [res.json] of a parsed document (kept as text) or of the
    credentials; [NotFound] is the page of the framework when no
    handler answers. *)
Inductive Body :=
| ErrorJson (error : string)
| Text (data : string)
| Document (json : string)
| Credentials (username password : string)
| NotFound.

Record Reply := mkReply {
  code : Z;
  payload : Body
}.

(** [a || b] on strings that may be undefined. *)
Definition or_else (a : option string) (b : string) : string :=
  if JS.falsy a then b else JS.interpolate a.

(** [response.ok] *)
Definition ok (r : Response) : bool :=
  (200 <=? status r)%Z && (status r <=? 299)%Z.

Section Env.

(** [process.env.CAMERA_USERNAME] and [process.env.CAMERA_PASSWORD] *)
Variables env_username env_password : option string.

(** [new URL(s).pathname] and [new URL(s).search] *)
Variables url_pathname url_search : string -> string.

Definition CAMERA_USERNAME : string := or_else env_username "root".
Definition CAMERA_PASSWORD : string := or_else env_password "".

Definition url_of (targetUrl : string) : Url :=
  mkUrl targetUrl (url_pathname targetUrl) (url_search targetUrl).

(** [GET /ptz]; [ip] and [command] are [req.query.ip] and
    [req.query.command]. *)
Definition ptz (ip command : option string) : World -> Reply * World :=
  fun w =>
    let command := or_else command "info=1&camera=1" in
    if JS.falsy ip then
      (mkReply 400 (ErrorJson "Missing required query parameter: ip"), w)
    else
      let targetUrl :=
        "http://" ++ JS.interpolate ip ++ "/axis-cgi/com/ptz.cgi?"
        ++ command in
      match fetchWithDigest (url_of targetUrl)
              (mkOptions None None (Some CAMERA_USERNAME)
                 (Some CAMERA_PASSWORD) ∅) w with
      | (Ok response, w') =>
          if negb (ok response) then
            (mkReply (status response)
               (ErrorJson ("Camera returned status "
                           ++ pretty (status response))), w')
          else (mkReply 200 (Text (body response)), w')
      | (Throw message, w') => (mkReply 500 (ErrorJson message), w')
      end.

(** The application: how many handlers [app.get("/credentials", _)]
    has registered so far. *)
Record App := mkApp {
  credentials_routes : nat
}.

(** [GET /streams]; [read] is what reading and parsing the
    configuration file gives.  The handler of [/credentials] is
    registered in the [catch] branch. *)
Definition streams (read : result string) : App -> Reply * App :=
  fun a =>
    match read with
    | Ok document => (mkReply 200 (Document document), a)
    | Throw _ =>
        (mkReply 500 (ErrorJson "Unable to load streams configuration"),
         mkApp (S (credentials_routes a)))
    end.

(** [GET /credentials]: the routes and the static handler of the
    source decline it ([static] is the answer of [express.static], if
    it has one); the first registered handler answers, the final
    handler of the framework otherwise. *)
Definition credentials (static : option Reply) (a : App) : Reply :=
  match static with
  | Some reply => reply
  | None =>
      match credentials_routes a with
      | O => mkReply 404 NotFound
      | S _ => mkReply 200 (Credentials CAMERA_USERNAME CAMERA_PASSWORD)
      end
  end.

End Env.

(** The application once it listens. *)
Definition boot : App := mkApp 0.

End Proxy.

(** ** The desktop shell

    [serverProcess] is the child that runs the proxy, or [null];
    [killed] logs the processes that received [kill()], oldest first,
    and [quit] whether [app.quit()] was called. *)

Module Electron.

Record Shell := mkShell {
  serverProcess : option nat;
  killed : list nat;
  quit : bool
}.

(** [stopServer()] *)
Definition stopServer (s : Shell) : Shell :=
  match serverProcess s with
  | Some p => mkShell None (killed s ++ [p]) (quit s)
  | None => s
  end.

(** The handlers of [window-all-closed] and [before-quit]. *)
Inductive Event :=
| WindowAllClosed
| BeforeQuit.

Definition handle (platform : string) (e : Event) (s : Shell) : Shell :=
  match e with
  | WindowAllClosed =>
      let s := stopServer s in
      if negb (String.eqb platform "darwin")
      then mkShell (serverProcess s) (killed s) true
      else s
  | BeforeQuit => stopServer s
  end.

Definition handle_all (platform : string) (events : list Event) (s : Shell)
  : Shell :=
  fold_left (fun s e => handle platform e s) events s.

End Electron.

(** * Vocabulary of the statements

    What the properties below are stated with: the specification's own
    formulas, sample inputs, and predicates over the model. *)

(** ** SHA-256 (FIPS 180-4)

    The proxy never calls it.  It is here as the second algorithm a
    Digest challenge may name (RFC 7616), to compare what the
    specification asks for with what [authenticate] computes. *)

Module SHA256.

Import Bytes.
Local Open Scope Z_scope.

(** The first 32 bits of the fractional parts of the cube roots of the
    first 64 primes. *)
Definition K : list Z :=
  [
   1116352408; 1899447441; 3049323471; 3921009573;
   961987163; 1508970993; 2453635748; 2870763221;
   3624381080; 310598401; 607225278; 1426881987;
   1925078388; 2162078206; 2614888103; 3248222580;
   3835390401; 4022224774; 264347078; 604807628;
   770255983; 1249150122; 1555081692; 1996064986;
   2554220882; 2821834349; 2952996808; 3210313671;
   3336571891; 3584528711; 113926993; 338241895;
   666307205; 773529912; 1294757372; 1396182291;
   1695183700; 1986661051; 2177026350; 2456956037;
   2730485921; 2820302411; 3259730800; 3345764771;
   3516065817; 3600352804; 4094571909; 275423344;
   430227734; 506948616; 659060556; 883997877;
   958139571; 1322822218; 1537002063; 1747873779;
   1955562222; 2024104815; 2227730452; 2361852424;
   2428436474; 2756734187; 3204031479; 3329325298 ].

(** The same for the square roots of the first 8 primes. *)
Definition init : list Z :=
  [ 1779033703; 3144134277; 1013904242; 2773480762; 1359893119; 2600822924; 528734635; 1541459225 ].

Definition Ch (x y z : Z) : Z := Z.lxor (Z.land x y) (Z.land (not32 x) z).
Definition Maj (x y z : Z) : Z :=
  Z.lxor (Z.lxor (Z.land x y) (Z.land x z)) (Z.land y z).
Definition Sigma0 (x : Z) : Z :=
  Z.lxor (Z.lxor (rotr32 x 2) (rotr32 x 13)) (rotr32 x 22).
Definition Sigma1 (x : Z) : Z :=
  Z.lxor (Z.lxor (rotr32 x 6) (rotr32 x 11)) (rotr32 x 25).
Definition sigma0 (x : Z) : Z :=
  Z.lxor (Z.lxor (rotr32 x 7) (rotr32 x 18)) (Z.shiftr x 3).
Definition sigma1 (x : Z) : Z :=
  Z.lxor (Z.lxor (rotr32 x 17) (rotr32 x 19)) (Z.shiftr x 10).

(** The message schedule, grown one word at a time from the 16 words of
    the block. *)
Definition extend (w : list Z) (t : nat) : list Z :=
  let at_ k := nth (t - k) w 0 in
  w ++ [add32 (add32 (sigma1 (at_ 2%nat)) (at_ 7%nat))
              (add32 (sigma0 (at_ 15%nat)) (at_ 16%nat))].

Definition schedule (block : list Z) : list Z :=
  fold_left extend (seq 16 48) (map word_be (chunks 16 4 block)).

Definition round (w : list Z) (v : list Z) (t : nat) : list Z :=
  match v with
  | [a; b; c; d; e; f; g; h] =>
      let t1 :=
        add32 (add32 (add32 h (Sigma1 e)) (Ch e f g))
              (add32 (nth t K 0) (nth t w 0)) in
      let t2 := add32 (Sigma0 a) (Maj a b c) in
      [add32 t1 t2; a; b; c; add32 d t1; e; f; g]
  | _ => v
  end.

Fixpoint add_words (xs ys : list Z) : list Z :=
  match xs, ys with
  | x :: xs', y :: ys' => add32 x y :: add_words xs' ys'
  | _, _ => []
  end.

Definition compress (v : list Z) (block : list Z) : list Z :=
  add_words v (fold_left (round (schedule block)) (seq 0 64) v).

Definition len64 (bits : Z) : list Z :=
  be32 (wrap32 (Z.shiftr bits 32)) ++ be32 (wrap32 bits).

Definition digest (msg : list Z) : list Z :=
  flat_map be32 (fold_left compress (blocks 64 (pad len64 msg)) init).

End SHA256.

Definition sha256 (value : string) : string :=
  Bytes.hex (SHA256.digest (Bytes.utf8 value)).

(** ** The Digest computation as the specification words it

    These definitions follow the text of section 4.2, not the code;
    the properties compare them with [authenticate]. *)

Module Spec.

Definition nc : string := "00000001".

Definition HA1 (hash : string -> string) (username realm password : string)
  : string :=
  hash (username ++ ":" ++ realm ++ ":" ++ password).

Definition HA2 (hash : string -> string) (method digestURI : string)
  : string :=
  hash (method ++ ":" ++ digestURI).

(** [response = hash(HA1 : nonce : nc : qop : HA2)], as written. *)
Definition response_as_written (hash : string -> string)
    (ha1 nonce nc qop ha2 : string) : string :=
  hash (ha1 ++ ":" ++ nonce ++ ":" ++ nc ++ ":" ++ qop ++ ":" ++ ha2).

(** The same with the client nonce between [nc] and [qop], which is the
    request digest of RFC 2617 for the auth quality of protection. *)
Definition response_with_cnonce (hash : string -> string)
    (ha1 nonce nc cnonce qop ha2 : string) : string :=
  hash (ha1 ++ ":" ++ nonce ++ ":" ++ nc ++ ":" ++ cnonce ++ ":" ++ qop
        ++ ":" ++ ha2).

(** The [Authorization] header of step 6. *)
Definition authorization
    (username realm nonce uri response qop nc cnonce : string) : string :=
  "Digest username=" ++ JS.quoted username ++ ", realm=" ++ JS.quoted realm
  ++ ", nonce=" ++ JS.quoted nonce ++ ", uri=" ++ JS.quoted uri
  ++ ", algorithm=MD5, response=" ++ JS.quoted response
  ++ ", qop=" ++ qop ++ ", nc=" ++ nc ++ ", cnonce=" ++ JS.quoted cnonce.

(** The hash algorithm named in the challenge; MD5 if unspecified. *)
Definition hash_named (algorithm : option string)
  : option (string -> string) :=
  match algorithm with
  | None => Some md5
  | Some a =>
      if String.eqb a "MD5" then Some md5
      else if String.eqb a "SHA-256" then Some sha256
      else None
  end.

End Spec.

(** A parameter of a Digest header, read with the proxy's own parser. *)
Definition field (name header : string) : option string :=
  match parseDigestHeader (Some header) with
  | Ok params => params !! name
  | Throw _ => None
  end.

(** ** Requests and worlds of the Digest client *)

(** The world once one more request has gone out. *)
Definition after_fetch (r : Request) (w : World) : World :=
  mkWorld (network w) (sent w ++ [r]) (random w) (cursor w).

(** The first request of [fetchWithDigest], and its retry with the
    [Authorization] header set. *)
Definition probe (targetUrl : Url) (options : Options) : Request :=
  mkRequest (href targetUrl) (fetchOptions options)
    (default "GET" (opt_method options)) (opt_headers options).

Definition retry (targetUrl : Url) (options : Options) (authHeader : string)
  : Request :=
  mkRequest (href targetUrl) (fetchOptions options)
    (default "GET" (opt_method options))
    (Some (<["authorization" := authHeader]>
             (default ∅ (opt_headers options)))).

(** The client nonce drawn in world [w]: the hex of the next 8 bytes. *)
Definition cnonce_of (w : World) : string :=
  Bytes.hex (map (fun i => (random w i) mod 256)%Z (seq (cursor w) 8)).

(** ** Sample cameras, challenges and credentials *)

(** A byte source that counts up from 0. *)
Definition counting (n : nat) : Z := Z.of_nat n.

(** A network for calls that send nothing. *)
Definition quiet : list Request -> Request -> result Response :=
  fun _ _ => Throw "unreachable".

(** A PTZ command as the /ptz route builds it, with the credentials of
    section 8. *)
Definition ptz_url : Url :=
  mkUrl "http://192.0.2.10/axis-cgi/com/ptz.cgi?pan=1"
    "/axis-cgi/com/ptz.cgi" "?pan=1".

Definition ptz_options : Options :=
  mkOptions None None (Some "u") (Some "p") ∅.

(** The challenge of the round trip of section 8 (realm R, nonce N,
    qop auth), as a header and as parsed parameters; its client nonce
    is 0001020304050607, the first 8 bytes of [counting]. *)
Definition challenge_R_N : string :=
  "Digest realm=" ++ JS.quoted "R" ++ ", nonce=" ++ JS.quoted "N"
  ++ ", qop=" ++ JS.quoted "auth".

Definition params_R_N : gmap string string :=
  <["realm" := "R"]> (<["nonce" := "N"]> (<["qop" := "auth"]> ∅)).

(** The same challenge, naming SHA-256. *)
Definition params_sha256 : gmap string string :=
  <["algorithm" := "SHA-256"]> params_R_N.

(** A camera that answers every request 401 with the same challenge. *)
Definition always_401 : list Request -> Request -> result Response :=
  fun _ _ =>
    Ok (mkResponse 401 {["www-authenticate" := challenge_R_N]} "").

(** A Digest challenge with no nonce. *)
Definition challenge_no_nonce : string :=
  "Digest realm=" ++ JS.quoted "R" ++ ", qop=" ++ JS.quoted "auth".

(** A camera that challenges the first request without a nonce and
    accepts whatever comes next. *)
Definition no_nonce_camera : list Request -> Request -> result Response :=
  fun earlier _ =>
    match earlier with
    | [] => Ok (mkResponse 401 {["www-authenticate" := challenge_no_nonce]} "")
    | _ => Ok (mkResponse 200 ∅ "ok")
    end.

(** A camera that asks for Basic authentication. *)
Definition basic_camera : list Request -> Request -> result Response :=
  fun _ _ =>
    Ok (mkResponse 401
          {["www-authenticate" := "Basic realm=" ++ JS.quoted "R"]} "").

(** ** Sentences of the specification on the Digest client, as written *)

(** The [response] of step 5 as the specification writes it: for every
    challenge with realm, nonce and qop and non-empty credentials, the
    response field of the header is the hash of HA1, nonce, nc, qop and
    HA2. *)
Definition response_as_specified : Prop :=
  forall params method digestUri username password w realm nonce qop,
    params !! "realm" = Some realm ->
    params !! "nonce" = Some nonce ->
    params !! "qop" = Some qop ->
    username <> "" -> password <> "" ->
    exists header,
      fst (authenticate params method digestUri
             (Some username) (Some password) w) = Ok header
      /\ field "response" header
         = Some (Spec.response_as_written md5
                   (Spec.HA1 md5 username realm password)
                   nonce "00000001" qop
                   (Spec.HA2 md5 method digestUri)).

(** The digest computed with the algorithm the challenge names, MD5 if
    it names none. *)
Definition hashes_as_challenged : Prop :=
  forall params method digestUri username password w hash,
    Spec.hash_named (params !! "algorithm") = Some hash ->
    username <> "" -> password <> "" ->
    let realm := JS.interpolate (params !! "realm") in
    let nonce := JS.interpolate (params !! "nonce") in
    let qop := JS.interpolate (params !! "qop") in
    exists header,
      fst (authenticate params method digestUri
             (Some username) (Some password) w) = Ok header
      /\ field "response" header
         = Some (Spec.response_with_cnonce hash
                   (Spec.HA1 hash username realm password)
                   nonce Spec.nc (cnonce_of w) qop
                   (Spec.HA2 hash method digestUri)).

(** A 401 whose Digest challenge lacks a nonce ends in ProtocolError
    after the probe alone. *)
Definition rejects_missing_nonce : Prop :=
  forall targetUrl options w r1 h params,
    network w (sent w) (probe targetUrl options) = Ok r1 ->
    status r1 = 401%Z ->
    headers r1 !! "www-authenticate" = Some h ->
    JS.startsWith h "Digest " = true ->
    parseDigestHeader (Some h) = Ok params ->
    params !! "nonce" = None ->
    fst (fetchWithDigest targetUrl options w) = Throw ProtocolError
    /\ sent (snd (fetchWithDigest targetUrl options w))
       = (sent w ++ [probe targetUrl options])%list.

(** ** Well-formed challenges *)

(** All the units of a string satisfy [p]. *)
Fixpoint all (p : ascii -> bool) (s : string) : bool :=
  match s with
  | EmptyString => true
  | String c s' => p c && all p s'
  end.

(** A challenge written the usual way: pairs of a key and a quoted
    value, separated by a comma and a space. *)
Fixpoint more_pairs (pairs : list (string * string)) : string :=
  match pairs with
  | [] => ""
  | (key, v) :: rest => ", " ++ key ++ "=" ++ JS.quoted v ++ more_pairs rest
  end.

Definition challenge_of (pairs : list (string * string)) : string :=
  match pairs with
  | [] => ""
  | (key, v) :: rest => key ++ "=" ++ JS.quoted v ++ more_pairs rest
  end.

Definition well_formed (pair : string * string) : Prop :=
  fst pair <> "" /\ all JS.is_word (fst pair) = true
  /\ snd pair <> "" /\ all (JS.is_not JS.dquote) (snd pair) = true.

Definition set_pair (params : gmap string string) (pair : string * string)
  : gmap string string :=
  JS.obj_set params (fst pair) (snd pair).

(** ** Replies and states of the streaming server *)

(** The camera list of the README, with a placeholder source. *)
Definition sample_streams : list Stream.StreamConfig :=
  [Stream.mkStream "cambox11" "SALA 1 CAMBOX11 DOMO"
     "rtsp://cambox11.example/axis-media/media.amp" "SALA 1"].

(** A field of a reply. *)
Fixpoint assoc (key : string) (fields : list (string * Stream.Json))
  : option Stream.Json :=
  match fields with
  | [] => None
  | (k, v) :: rest => if String.eqb k key then Some v else assoc key rest
  end.

Definition active_reply (cameraId : string) : Stream.Reply :=
  Stream.mkReply 200
    [("active", Stream.JBool true);
     ("hlsUrl", Stream.JString (Stream.hlsUrl cameraId))].

Definition inactive_reply : Stream.Reply :=
  Stream.mkReply 200
    [("active", Stream.JBool false); ("hlsUrl", Stream.JNull)].

(** The state [start] leaves when it spawns. *)
Definition after_start (stream : Stream.StreamConfig) (cameraId : string)
    (s : Stream.Server) : Stream.Server :=
  let cameraDir := Stream.path_join Stream.hlsDir cameraId in
  let ffmpeg := length (Stream.processes s) in
  Stream.mkServer
    (<[cameraId := ffmpeg]> (Stream.activeStreams s))
    (Stream.processes s
     ++ [Stream.mkProcess "ffmpeg"
           (Stream.ffmpeg_args (Stream.url stream) cameraDir)
           [("stderr.data", Stream.LogData cameraId);
            ("error", Stream.LogErrorAndDelete cameraId);
            ("close", Stream.LogExitAndDelete cameraId)]
           []])
    ({[cameraDir]} ∪ Stream.directories s)
    (Stream.trace s
     ++ [Stream.MapHas cameraId; Stream.ExistsSync cameraDir]
     ++ (if bool_decide (cameraDir ∈ Stream.directories s) then []
         else [Stream.MkdirSync cameraDir])
     ++ [Stream.Spawn ffmpeg;
         Stream.On ffmpeg "stderr.data";
         Stream.On ffmpeg "error";
         Stream.On ffmpeg "close";
         Stream.MapSet cameraId ffmpeg]).

(** ** Process observers and the registry *)

(** The three listeners [start] attaches to the process of a camera. *)
Definition observers (cameraId : string) : list (string * Stream.Callback) :=
  [("stderr.data", Stream.LogData cameraId);
   ("error", Stream.LogErrorAndDelete cameraId);
   ("close", Stream.LogExitAndDelete cameraId)].

(** Every registered session points to a process that exists and
    carries the observers of its own camera. *)
Definition supervised (s : Stream.Server) : Prop :=
  forall cameraId process,
    Stream.activeStreams s !! cameraId = Some process ->
    exists p,
      Stream.processes s !! process = Some p
      /\ Stream.listeners p = observers cameraId.

#[global] Instance Callback_eq_dec : EqDecision Stream.Callback.
Proof. solve_decision. Defined.

(** The processes spawned for a camera are those that carry its
    observers. *)
Definition for_camera (cameraId : string) (p : Stream.ChildProcess) : bool :=
  bool_decide (Stream.listeners p = observers cameraId).

Definition spawned_for (cameraId : string) (s : Stream.Server) : nat :=
  length (List.filter (for_camera cameraId) (Stream.processes s)).

(** Events that neither stop the session of [cameraId] nor report the
    end of a process: requests about other cameras, and status
    requests. *)
Definition foreign (cameraId : string) (e : Stream.Event) : Prop :=
  match e with
  | Stream.GetStart c | Stream.GetStop c => c <> cameraId
  | Stream.GetStatus _ => True
  | Stream.Emit _ _ => False
  end.

(** ** The order of effects within [start] *)

Definition is_read (e : Stream.Effect) : bool :=
  match e with
  | Stream.MapHas _ | Stream.MapGet _ => true
  | _ => false
  end.

(** Registration as the first action of [start]: nothing but reads of
    the registry comes before the insertion; and what it is meant to
    give, one process for two calls. *)
Definition registers_first : Prop :=
  forall streams cameraId s,
    cameraId ∈ map Stream.id streams ->
    Stream.activeStreams s !! cameraId = None ->
    (exists reads process rest,
        forallb is_read reads = true
        /\ Stream.trace (snd (Stream.start streams cameraId s))
           = (Stream.trace s ++ reads
              ++ Stream.MapSet cameraId process :: rest)%list)
    /\ (let '(r1, s1) := Stream.start streams cameraId s in
        let '(r2, s2) := Stream.start streams cameraId s1 in
        r2 = Stream.already_running cameraId
        /\ length (Stream.processes s2) = S (length (Stream.processes s))).

(** ** Invariants of the streaming server *)

(** A handler keeps [P]. *)
Definition preserves {A : Type} (P : Stream.Server -> Prop)
    (h : Stream.Handler A) : Prop :=
  forall s, P s -> P (snd (h s)).

(** The iteration order holds the registry: the same bindings, each
    camera once. *)
Definition logged (s : Stream.Server) : Prop :=
  NoDup (map fst (Stream.entries s))
  /\ list_to_map (Stream.entries s) = Stream.activeStreams s.

(** The output directories are in place: [hls] itself and the
    directory of every registered camera. *)
Definition housed (s : Stream.Server) : Prop :=
  Stream.hlsDir ∈ Stream.directories s
  /\ forall cameraId process,
       Stream.activeStreams s !! cameraId = Some process ->
       Stream.path_join Stream.hlsDir cameraId ∈ Stream.directories s.

(** A process after one more SIGTERM. *)
Definition signalled (p : Stream.ChildProcess) : Stream.ChildProcess :=
  Stream.mkProcess (Stream.command p) (Stream.args p) (Stream.listeners p)
    (Stream.signals p ++ ["SIGTERM"]).

(** The reply of a [start] that spawned. *)
Definition is_started (r : option Stream.Reply) : bool :=
  match r with
  | Some r =>
      match assoc "status" (Stream.json r) with
      | Some (Stream.JString status) => String.eqb status "started"
      | _ => false
      end
  | None => false
  end.

(** ** Character classes of header values *)

(** Lowercase hexadecimal digits. *)
Definition is_hex (c : ascii) : bool :=
  let n := nat_of_ascii c in
  (((48 <=? n) && (n <=? 57)) || ((97 <=? n) && (n <=? 102)))%nat.

(** What may stand in an unquoted value without being cut or trimmed. *)
Definition is_bare (c : ascii) : bool :=
  negb (JS.is_space c) && JS.is_not JS.comma c && JS.is_not JS.dquote c.

(** A value that can be sent between quotes, and one that can be sent
    without. *)
Definition quotable (v : string) : Prop :=
  v <> "" /\ all (JS.is_not JS.dquote) v = true.

Definition bare (v : string) : Prop :=
  v <> "" /\ all is_bare v = true.

(** The keys [parseDigestHeader] can produce. *)
Definition word_key (key : string) : Prop :=
  key <> "" /\ all JS.is_word key = true /\ key <> "__proto__".

(** ** Requests of the proxy routes *)

(** The camera URL of a PTZ command. *)
Definition ptz_target (ip command : option string) : string :=
  "http://" ++ JS.interpolate ip ++ "/axis-cgi/com/ptz.cgi?"
  ++ Proxy.or_else command "info=1&camera=1".

(** The application after a series of [/streams] requests, given what
    reading the configuration gave each time. *)
Definition after_streams (reads : list (result string)) (a : Proxy.App)
  : Proxy.App :=
  fold_left (fun a read => snd (Proxy.streams read a)) reads a.

Definition failed (read : result string) : bool :=
  match read with
  | Ok _ => false
  | Throw _ => true
  end.

(** A byte. *)
Definition is_byte (b : Z) : Prop := (0 <= b < 256)%Z.

(** The text that may follow an unquoted value: nothing, or a comma. *)
Definition ends_value (rest : string) : Prop :=
  rest = "" \/ exists r, rest = String JS.comma r.

(** ** A sample PTZ request *)

(** The components that [new URL] gives for the target of the sample
    request. *)
Definition sample_pathname (s : string) : string := "/axis-cgi/com/ptz.cgi".
Definition sample_search (s : string) : string := "?pan=1".

(** * Test vectors of the hash functions *)

Example md5_empty : md5 "" = "d41d8cd98f00b204e9800998ecf8427e".
Proof. vm_compute. reflexivity. Qed.

Example md5_abc : md5 "abc" = "900150983cd24fb0d6963f7d28e17f72".
Proof. vm_compute. reflexivity. Qed.

Example md5_two_blocks :
  md5 "aaaaaaaaaaaaaaaaaaaaaaaaaaaaaaaaaaaaaaaaaaaaaaaaaaaaaaaaaaaaaaaaaaaaaa"
  = "0f5c6c4e740bfcc08c3c26ccb2673d46".
Proof. vm_compute. reflexivity. Qed.

Example sha256_empty :
  sha256 ""
  = "e3b0c44298fc1c149afbf4c8996fb92427ae41e4649b934ca495991b7852b855".
Proof. vm_compute. reflexivity. Qed.

Example sha256_abc :
  sha256 "abc"
  = "ba7816bf8f01cfea414140de5dae2223b00361a396177a9cb410ff61f20015ad".
Proof. vm_compute. reflexivity. Qed.

Example md5_latin1 : md5 (String (ascii_of_nat 233) "")
                     = "66ddcd97cfdeabb2f6fb8a999b4bc76f".
Proof. vm_compute. reflexivity. Qed.

(** The example of RFC 2617, section 3.5. *)
Example rfc2617_response :
  Spec.response_with_cnonce md5
    (Spec.HA1 md5 "Mufasa" "testrealm@host.com" "Circle Of Life")
    "dcd98b7102dd2f0e8b11d0f600bfb0c093" "00000001" "0a4f113b" "auth"
    (Spec.HA2 md5 "GET" "/dir/index.html")
  = "6629fae49393a05397450978507c4ef1".
Proof. vm_compute. reflexivity. Qed.

(** * Properties of the streaming server *)

(** ** The three routes *)

Lemma start_unknown streams cameraId s :
  find (fun c => String.eqb (Stream.id c) cameraId) streams = None ->
  Stream.start streams cameraId s = (Stream.NotFound, s).
Proof. intros H. unfold Stream.start. rewrite H. reflexivity. Qed.

Lemma start_running streams cameraId s stream process :
  find (fun c => String.eqb (Stream.id c) cameraId) streams = Some stream ->
  Stream.activeStreams s !! cameraId = Some process ->
  Stream.start streams cameraId s
  = (Stream.already_running cameraId,
     Stream.effect (Stream.MapHas cameraId) s).
Proof.
  intros Hf Hr. unfold Stream.start, Stream.seq_, Stream.map_has.
  rewrite Hf, Hr. rewrite bool_decide_eq_true_2 by eauto. reflexivity.
Qed.

Lemma alter_last {A : Type} (f : A -> A) (l : list A) (x : A) :
  alter f (length l) (l ++ [x])%list = (l ++ [f x])%list.
Proof.
  replace (length l) with (length l + 0) by lia.
  rewrite alter_app_r. reflexivity.
Qed.

Lemma start_fresh streams cameraId s stream :
  find (fun c => String.eqb (Stream.id c) cameraId) streams = Some stream ->
  Stream.activeStreams s !! cameraId = None ->
  Stream.start streams cameraId s
  = (Stream.started cameraId, after_start stream cameraId s).
Proof.
  intros Hf Hr. unfold Stream.start, Stream.seq_, Stream.map_has.
  rewrite Hf, Hr.
  rewrite bool_decide_eq_false_2 by (intros [? ?]; discriminate).
  unfold after_start, Stream.existsSync. cbn [Stream.effect Stream.directories].
  destruct (bool_decide (Stream.path_join Stream.hlsDir cameraId
                         ∈ Stream.directories s)) eqn:D;
    cbn -[Stream.ffmpeg_args Stream.path_join];
    rewrite !alter_last;
    unfold Stream.pure, Stream.effect;
    cbn -[Stream.ffmpeg_args Stream.path_join];
    rewrite <- ?app_assoc; cbn -[Stream.ffmpeg_args Stream.path_join].
  - apply bool_decide_eq_true_1 in D.
    rewrite (subseteq_union_1_L {[Stream.path_join Stream.hlsDir cameraId]}
               (Stream.directories s)) by set_solver.
    reflexivity.
  - reflexivity.
Qed.

Lemma status_reply cameraId s :
  Stream.status cameraId s
  = (Stream.mkReply 200
       [("active",
         Stream.JBool (bool_decide (is_Some (Stream.activeStreams s !! cameraId))));
        ("hlsUrl",
         if bool_decide (is_Some (Stream.activeStreams s !! cameraId))
         then Stream.JString (Stream.hlsUrl cameraId) else Stream.JNull)],
     Stream.effect (Stream.MapHas cameraId) s).
Proof. reflexivity. Qed.

Lemma stop_absent cameraId s :
  Stream.activeStreams s !! cameraId = None ->
  Stream.stop cameraId s
  = (Stream.NotActive, Stream.effect (Stream.MapGet cameraId) s).
Proof.
  intros H. unfold Stream.stop, Stream.seq_, Stream.map_get. rewrite H.
  reflexivity.
Qed.

Lemma stop_present cameraId s process :
  Stream.activeStreams s !! cameraId = Some process ->
  exists s',
    Stream.stop cameraId s = (Stream.stopped, s')
    /\ Stream.activeStreams s' = delete cameraId (Stream.activeStreams s)
    /\ Stream.processes s'
       = alter (fun p => Stream.mkProcess (Stream.command p) (Stream.args p)
                           (Stream.listeners p)
                           (Stream.signals p ++ ["SIGTERM"]))
           process (Stream.processes s)
    /\ Stream.directories s' = Stream.directories s.
Proof.
  intros H. unfold Stream.stop, Stream.seq_, Stream.map_get. rewrite H.
  eexists. split; [reflexivity|]. cbn. auto.
Qed.

Lemma stop_forgets cameraId s :
  Stream.activeStreams (snd (Stream.stop cameraId s)) !! cameraId = None.
Proof.
  destruct (Stream.activeStreams s !! cameraId) as [p|] eqn:E.
  - destruct (stop_present cameraId s p E) as (s' & -> & Ha & _).
    cbn. rewrite Ha. apply lookup_delete_eq.
  - rewrite stop_absent by exact E. exact E.
Qed.

Lemma find_known streams cameraId :
  cameraId ∈ map Stream.id streams ->
  exists stream,
    find (fun c => String.eqb (Stream.id c) cameraId) streams = Some stream.
Proof.
  induction streams as [|c cs IH]; cbn.
  - intros H. inversion H.
  - intros H. destruct (String.eqb_spec (Stream.id c) cameraId) as [E|N].
    + eauto.
    + apply IH. apply elem_of_cons in H. destruct H as [H|H]; [|exact H].
      congruence.
Qed.

Lemma find_unknown streams cameraId :
  cameraId ∉ map Stream.id streams ->
  find (fun c => String.eqb (Stream.id c) cameraId) streams = None.
Proof.
  induction streams as [|c cs IH]; cbn; [reflexivity|].
  intros H. destruct (String.eqb_spec (Stream.id c) cameraId) as [E|N].
  - exfalso. apply H. rewrite E. apply list_elem_of_here.
  - apply IH. intros Hin. apply H. apply list_elem_of_further. exact Hin.
Qed.

(** C7: for every cameraId that is not in the camera configuration,
    [start] replies 404 "Camera not found" and leaves the whole server
    state as it was: no process is spawned and the registry is
    unchanged. *)
Theorem start_unknown_camera streams cameraId s :
  cameraId ∉ map Stream.id streams ->
  Stream.start streams cameraId s = (Stream.NotFound, s)
  /\ Stream.processes (snd (Stream.start streams cameraId s))
     = Stream.processes s
  /\ Stream.activeStreams (snd (Stream.start streams cameraId s))
     = Stream.activeStreams s.
Proof.
  intros H. rewrite (start_unknown _ _ _ (find_unknown _ _ H)). auto.
Qed.

Lemma start_unknown_camera_witness :
  Stream.start sample_streams "no-such-camera" Stream.boot
  = (Stream.NotFound, Stream.boot).
Proof.
  apply (start_unknown_camera sample_streams "no-such-camera" Stream.boot).
  cbn. intros H. apply list_elem_of_singleton in H. discriminate.
Defined.

(** C4: for every known cameraId, of two [start] calls in immediate
    succession the second replies [already_running] with the hlsUrl of
    the first and spawns nothing; when no session was registered before
    the first call, the first replies [started] and the two calls spawn
    exactly one process. *)
Theorem start_twice streams cameraId s :
  cameraId ∈ map Stream.id streams ->
  let '(r1, s1) := Stream.start streams cameraId s in
  let '(r2, s2) := Stream.start streams cameraId s1 in
  r2 = Stream.already_running cameraId
  /\ assoc "hlsUrl" (Stream.json r2) = assoc "hlsUrl" (Stream.json r1)
  /\ Stream.processes s2 = Stream.processes s1
  /\ (Stream.activeStreams s !! cameraId = None ->
      r1 = Stream.started cameraId
      /\ length (Stream.processes s2) = S (length (Stream.processes s))).
Proof.
  intros K. destruct (find_known _ _ K) as [stream F].
  destruct (Stream.activeStreams s !! cameraId) as [p|] eqn:E.
  - rewrite (start_running _ _ _ _ _ F E).
    rewrite (start_running _ _ _ stream p F) by exact E.
    repeat split; discriminate.
  - rewrite (start_fresh _ _ _ _ F E).
    rewrite (start_running _ _ _ stream (length (Stream.processes s)) F)
      by apply lookup_insert_eq.
    repeat split. cbn. rewrite length_app. cbn. lia.
Qed.

Lemma start_twice_witness :
  let '(r1, s1) := Stream.start sample_streams "cambox11" Stream.boot in
  let '(r2, s2) := Stream.start sample_streams "cambox11" s1 in
  r1 = Stream.started "cambox11"
  /\ r2 = Stream.already_running "cambox11"
  /\ length (Stream.processes s2) = 1.
Proof.
  pose proof (start_twice sample_streams "cambox11" Stream.boot) as H.
  destruct (Stream.start sample_streams "cambox11" Stream.boot) as [r1 s1].
  destruct (Stream.start sample_streams "cambox11" s1) as [r2 s2].
  destruct H as (H2 & _ & _ & H1).
  - cbn. apply list_elem_of_singleton. reflexivity.
  - destruct H1 as [H1 L]; [reflexivity|]. auto.
Defined.

Lemma status_active cameraId s process :
  Stream.activeStreams s !! cameraId = Some process ->
  fst (Stream.status cameraId s) = active_reply cameraId.
Proof.
  intros H. rewrite status_reply, H.
  rewrite bool_decide_eq_true_2 by eauto. reflexivity.
Qed.

Lemma status_inactive cameraId s :
  Stream.activeStreams s !! cameraId = None ->
  fst (Stream.status cameraId s) = inactive_reply.
Proof.
  intros H. rewrite status_reply, H.
  rewrite bool_decide_eq_false_2 by (intros [? ?]; discriminate).
  reflexivity.
Qed.

Lemma start_ok_registers streams cameraId s :
  Stream.code (fst (Stream.start streams cameraId s)) = 200 ->
  is_Some (Stream.activeStreams (snd (Stream.start streams cameraId s))
           !! cameraId).
Proof.
  destruct (find (fun c => String.eqb (Stream.id c) cameraId) streams)
    as [stream|] eqn:F.
  - destruct (Stream.activeStreams s !! cameraId) as [p|] eqn:E.
    + rewrite (start_running _ _ _ _ _ F E). cbn. rewrite E. eauto.
    + rewrite (start_fresh _ _ _ _ F E). cbn. rewrite lookup_insert_eq. eauto.
  - rewrite (start_unknown _ _ _ F). cbn. discriminate.
Qed.

(** C5: after a [start] that succeeds (status 200, [started] or
    [already_running]), [status] reports active with the playback URL;
    after [stop], whatever it replied, [status] reports inactive with a
    null hlsUrl and a further [stop] replies 404 "Stream not active";
    [status] itself always replies 200 and changes neither the registry
    nor the processes. *)
Theorem start_stop_status streams cameraId s :
  (Stream.code (fst (Stream.start streams cameraId s)) = 200 ->
   fst (Stream.status cameraId (snd (Stream.start streams cameraId s)))
   = active_reply cameraId
   /\ assoc "hlsUrl" (Stream.json (active_reply cameraId)) <> Some Stream.JNull)
  /\ fst (Stream.status cameraId (snd (Stream.stop cameraId s)))
     = inactive_reply
  /\ fst (Stream.stop cameraId (snd (Stream.stop cameraId s)))
     = Stream.NotActive
  /\ Stream.code (fst (Stream.status cameraId s)) = 200
  /\ Stream.activeStreams (snd (Stream.status cameraId s))
     = Stream.activeStreams s
  /\ Stream.processes (snd (Stream.status cameraId s)) = Stream.processes s.
Proof.
  split; [|split; [|split]].
  - intros H. apply start_ok_registers in H. destruct H as [p H].
    split; [exact (status_active _ _ _ H)|]. cbn. discriminate.
  - apply status_inactive, stop_forgets.
  - rewrite stop_absent by apply stop_forgets. reflexivity.
  - rewrite status_reply. auto.
Qed.

Lemma start_stop_status_witness :
  fst (Stream.status "cambox11"
         (snd (Stream.start sample_streams "cambox11" Stream.boot)))
  = active_reply "cambox11".
Proof.
  apply (start_stop_status sample_streams "cambox11" Stream.boot).
  reflexivity.
Defined.

(** ** Process observers and the registry *)

Lemma supervised_boot : supervised Stream.boot.
Proof. intros c p H. cbn in H. rewrite lookup_empty in H. discriminate. Qed.

Lemma supervised_effect e s : supervised s -> supervised (Stream.effect e s).
Proof. intros H. exact H. Qed.

Lemma supervised_start streams cameraId s :
  supervised s -> supervised (snd (Stream.start streams cameraId s)).
Proof.
  intros H.
  destruct (find (fun c => String.eqb (Stream.id c) cameraId) streams)
    as [stream|] eqn:F.
  - destruct (Stream.activeStreams s !! cameraId) as [p|] eqn:E.
    + rewrite (start_running _ _ _ _ _ F E). exact H.
    + rewrite (start_fresh _ _ _ _ F E). intros c q. cbn.
      intros L. apply lookup_insert_Some in L.
      destruct L as [[<- <-]|[N L]].
      * eexists. split; [apply list_lookup_middle; reflexivity|reflexivity].
      * destruct (H _ _ L) as (p & P & O). exists p. split; [|exact O].
        apply lookup_app_l_Some. exact P.
  - rewrite (start_unknown _ _ _ F). exact H.
Qed.

Lemma supervised_stop cameraId s :
  supervised s -> supervised (snd (Stream.stop cameraId s)).
Proof.
  intros H. destruct (Stream.activeStreams s !! cameraId) as [p|] eqn:E.
  - destruct (stop_present cameraId s p E) as (s' & -> & Ha & Hp & _).
    intros c q. cbn. rewrite Ha, Hp. intros L.
    apply lookup_delete_Some in L. destruct L as [_ L].
    destruct (H _ _ L) as (p0 & P & O).
    rewrite list_lookup_alter. destruct (decide (p = q)) as [->|N].
    + rewrite P. cbn. eexists. split; [reflexivity|exact O].
    + eauto.
  - rewrite stop_absent by exact E. exact H.
Qed.

(** Listeners only ever delete entries; processes are left alone. *)
Lemma call_all_deletes callbacks s :
  Stream.processes (snd (Stream.call_all callbacks s)) = Stream.processes s
  /\ Stream.directories (snd (Stream.call_all callbacks s))
     = Stream.directories s
  /\ forall cameraId process,
       Stream.activeStreams (snd (Stream.call_all callbacks s)) !! cameraId
       = Some process ->
       Stream.activeStreams s !! cameraId = Some process.
Proof.
  revert s. induction callbacks as [|c cs IH]; intros s; cbn.
  - auto.
  - unfold Stream.seq_.
    destruct (Stream.call c s) as [u s1] eqn:C.
    destruct (IH s1) as (P & D & A).
    assert (Stream.processes s1 = Stream.processes s
            /\ Stream.directories s1 = Stream.directories s
            /\ forall cameraId process,
                 Stream.activeStreams s1 !! cameraId = Some process ->
                 Stream.activeStreams s !! cameraId = Some process)
      as (P1 & D1 & A1).
    { destruct c; cbn in C; injection C as _ <-; cbn; repeat split; auto;
        intros ? ? L; apply lookup_delete_Some in L; tauto. }
    rewrite P, D, P1, D1. repeat split. intros ? ? L. eauto.
Qed.

Lemma supervised_emit process event s :
  supervised s -> supervised (snd (Stream.emit process event s)).
Proof.
  intros H. unfold Stream.emit.
  destruct (Stream.processes s !! process) as [p|]; [|exact H].
  match goal with |- supervised (snd (Stream.call_all ?cbs s)) =>
    destruct (call_all_deletes cbs s) as (P & _ & A) end.
  intros c q L. rewrite P. apply H, A, L.
Qed.

Lemma supervised_deliver streams e s :
  supervised s -> supervised (snd (Stream.deliver streams e s)).
Proof.
  intros H. destruct e as [c|c|c|p ev]; cbn; unfold Stream.seq_.
  - pose proof (supervised_start streams c s H) as H'.
    destruct (Stream.start streams c s). exact H'.
  - pose proof (supervised_stop c s H) as H'.
    destruct (Stream.stop c s). exact H'.
  - exact H.
  - pose proof (supervised_emit p ev s H) as H'.
    destruct (Stream.emit p ev s). exact H'.
Qed.

Lemma supervised_run streams events s :
  supervised s -> supervised (snd (Stream.run streams events s)).
Proof.
  revert s. induction events as [|e es IH]; intros s H; cbn.
  - exact H.
  - unfold Stream.seq_.
    pose proof (supervised_deliver streams e s H) as H1.
    destruct (Stream.deliver streams e s) as [r s1].
    pose proof (IH s1 H1) as H2.
    destruct (Stream.run streams es s1) as [rs s2]. exact H2.
Qed.

(** A termination event of a process that carries the observers of
    [cameraId] deletes the entry of [cameraId] and nothing else. *)
Lemma emit_termination cameraId process event s p :
  Stream.processes s !! process = Some p ->
  Stream.listeners p = observers cameraId ->
  event = "close" \/ event = "error" ->
  Stream.emit process event s
  = (tt, Stream.effect (Stream.MapDelete cameraId)
           (Stream.mkServer (delete cameraId (Stream.activeStreams s))
              (Stream.processes s) (Stream.directories s) (Stream.trace s))).
Proof.
  intros P O E. unfold Stream.emit. rewrite P, O.
  destruct E as [-> | ->]; reflexivity.
Qed.

(** C6: in every state the server can reach, when the process of a
    registered session emits [close] or [error], the entry of its
    cameraId is deleted and [status] then reports inactive, with no
    [stop]; a termination event that fires when the entry is already
    gone (a second event, or one that follows [stop]) leaves the
    registry as it is. *)
Theorem termination_observer streams events cameraId process event :
  let s := snd (Stream.run streams events Stream.boot) in
  Stream.activeStreams s !! cameraId = Some process ->
  event = "close" \/ event = "error" ->
  let s' := snd (Stream.emit process event s) in
  let s1 := snd (Stream.stop cameraId s) in
  Stream.activeStreams s' = delete cameraId (Stream.activeStreams s)
  /\ fst (Stream.status cameraId s') = inactive_reply
  /\ (forall later, later = "close" \/ later = "error" ->
      Stream.activeStreams (snd (Stream.emit process later s'))
      = Stream.activeStreams s')
  /\ (forall later, later = "close" \/ later = "error" ->
      Stream.activeStreams (snd (Stream.emit process later s1))
      = Stream.activeStreams s1).
Proof.
  intros s R E s' s1.
  assert (supervised s) as H by apply supervised_run, supervised_boot.
  destruct (H _ _ R) as (p & P & O).
  subst s'. rewrite (emit_termination _ _ _ _ _ P O E). cbn [snd].
  split; [reflexivity|]. split; [|split].
  - apply status_inactive. cbn. apply lookup_delete_eq.
  - intros later L.
    erewrite emit_termination; [|exact P|exact O|exact L]. cbn.
    apply delete_id, lookup_delete_eq.
  - intros later L. subst s1.
    destruct (stop_present cameraId s process R) as (s2 & S2 & Ha & Hp & _).
    rewrite S2. cbn [snd].
    assert (Stream.processes s2 !! process
            = Some (Stream.mkProcess (Stream.command p) (Stream.args p)
                      (Stream.listeners p)
                      (Stream.signals p ++ ["SIGTERM"]))) as P2.
    { rewrite Hp, list_lookup_alter_eq, P. reflexivity. }
    erewrite emit_termination; [|exact P2|exact O|exact L]. cbn.
    apply delete_id. rewrite Ha. apply lookup_delete_eq.
Qed.

Lemma termination_observer_witness :
  fst (Stream.status "cambox11"
         (snd (Stream.emit 0 "close"
                 (snd (Stream.run sample_streams
                         [Stream.GetStart "cambox11"] Stream.boot)))))
  = inactive_reply.
Proof.
  apply (termination_observer sample_streams [Stream.GetStart "cambox11"]
           "cambox11" 0 "close").
  - reflexivity.
  - left. reflexivity.
Defined.

(** ** The order of effects within [start] *)

Example start_trace_sample :
  Stream.trace (snd (Stream.start sample_streams "cambox11" Stream.boot))
  = [Stream.MapHas "cambox11";
     Stream.ExistsSync "hls/cambox11";
     Stream.MkdirSync "hls/cambox11";
     Stream.Spawn 0;
     Stream.On 0 "stderr.data";
     Stream.On 0 "error";
     Stream.On 0 "close";
     Stream.MapSet "cambox11" 0].
Proof. vm_compute. reflexivity. Qed.

(** C3, as stated, fails: on a fresh server, [start] checks and creates
    the directory and spawns the process before it inserts the
    session. *)
Lemma registers_first_counterexample : ~ registers_first.
Proof.
  intros C.
  destruct (C sample_streams "cambox11" Stream.boot) as [(rs & p & rest & R & T) _].
  - cbn. apply list_elem_of_singleton. reflexivity.
  - reflexivity.
  - rewrite start_trace_sample in T. cbn in T.
    destruct rs as [|r1 rs]; [discriminate T|].
    injection T as <- T.
    destruct rs as [|r2 rs]; [discriminate T|].
    injection T as <- T. cbn in R. discriminate R.
Qed.

(** ** Two [start] calls and what the event loop may deliver between *)

Lemma filter_alter_length {A : Type} (P : A -> bool) (f : A -> A) i l :
  (forall x, P (f x) = P x) ->
  length (List.filter P (alter f i l)) = length (List.filter P l).
Proof.
  intros H. revert i. induction l as [|x l IH]; intros [|i]; cbn; auto.
  - rewrite H. destruct (P x); reflexivity.
  - destruct (P x); cbn; rewrite IH; reflexivity.
Qed.

Lemma run_app streams es1 es2 s :
  Stream.run streams (es1 ++ es2) s
  = let '(r1, s1) := Stream.run streams es1 s in
    let '(r2, s2) := Stream.run streams es2 s1 in
    ((r1 ++ r2)%list, s2).
Proof.
  revert s. induction es1 as [|e es1 IH]; intros s; cbn.
  - unfold Stream.pure. destruct (Stream.run streams es2 s). reflexivity.
  - unfold Stream.seq_. destruct (Stream.deliver streams e s) as [r s1].
    rewrite IH. destruct (Stream.run streams es1 s1) as [r1 s2].
    unfold Stream.pure.
    destruct (Stream.run streams es2 s2) as [r2 s3]. reflexivity.
Qed.

Lemma deliver_foreign streams cameraId e s :
  foreign cameraId e ->
  Stream.activeStreams (snd (Stream.deliver streams e s)) !! cameraId
  = Stream.activeStreams s !! cameraId
  /\ spawned_for cameraId (snd (Stream.deliver streams e s))
     = spawned_for cameraId s.
Proof.
  destruct e as [c|c|c|p ev]; cbn; unfold Stream.seq_; intros F.
  - destruct (find (fun x => String.eqb (Stream.id x) c) streams)
      as [stream|] eqn:K.
    + destruct (Stream.activeStreams s !! c) as [q|] eqn:E.
      * rewrite (start_running _ _ _ _ _ K E). auto.
      * rewrite (start_fresh _ _ _ _ K E). cbn. split.
        -- apply lookup_insert_ne. exact F.
        -- unfold spawned_for. cbn. rewrite List.filter_app, length_app.
           cbn. unfold for_camera at 2. cbn.
           rewrite bool_decide_eq_false_2; [cbn; lia|].
           intros [= ->]. congruence.
    + rewrite (start_unknown _ _ _ K). auto.
  - destruct (Stream.activeStreams s !! c) as [q|] eqn:E.
    + destruct (stop_present c s q E) as (s' & -> & Ha & Hp & _). cbn.
      rewrite Ha. split; [apply lookup_delete_ne; exact F|].
      unfold spawned_for. rewrite Hp. apply filter_alter_length.
      intros x. reflexivity.
    + rewrite stop_absent by exact E. auto.
  - auto.
  - destruct F.
Qed.

Lemma run_foreign streams cameraId events s :
  Forall (foreign cameraId) events ->
  Stream.activeStreams (snd (Stream.run streams events s)) !! cameraId
  = Stream.activeStreams s !! cameraId
  /\ spawned_for cameraId (snd (Stream.run streams events s))
     = spawned_for cameraId s.
Proof.
  intros F. revert s. induction F as [|e es Fe _ IH]; intros s; cbn.
  - auto.
  - unfold Stream.seq_.
    destruct (deliver_foreign streams cameraId e s Fe) as [A1 N1].
    destruct (Stream.deliver streams e s) as [r s1]. cbn in A1, N1.
    destruct (IH s1) as [A2 N2].
    destruct (Stream.run streams es s1) as [rs s2]. cbn in *.
    split; congruence.
Qed.

Lemma run_cons streams e es s :
  Stream.run streams (e :: es) s
  = let '(r, s1) := Stream.deliver streams e s in
    let '(rs, s2) := Stream.run streams es s1 in
    (r :: rs, s2).
Proof.
  cbn. unfold Stream.seq_, Stream.pure.
  destruct (Stream.deliver streams e s) as [r s1].
  destruct (Stream.run streams es s1). reflexivity.
Qed.

Lemma deliver_start streams cameraId s :
  Stream.deliver streams (Stream.GetStart cameraId) s
  = let '(r, s1) := Stream.start streams cameraId s in (Some r, s1).
Proof.
  cbn. unfold Stream.seq_, Stream.pure.
  destruct (Stream.start streams cameraId s). reflexivity.
Qed.

Lemma run_length streams events s :
  length (fst (Stream.run streams events s)) = length events.
Proof.
  revert s. induction events as [|e es IH]; intros s; [reflexivity|].
  rewrite run_cons. destruct (Stream.deliver streams e s) as [r s1].
  specialize (IH s1). destruct (Stream.run streams es s1) as [rs s2].
  cbn in *. congruence.
Qed.

(** C3, amended: [start] runs from the presence check to the insertion
    without yielding.  For a known camera with no session it checks the
    registry, checks (and if absent creates) the directory, spawns the
    process, attaches the three listeners and only then inserts the
    session, which stores the handle that [spawn] returned.  No event
    is delivered inside a handler, so of two [start] calls for that
    camera, whatever requests about other cameras and status requests
    the event loop delivers between them, the first replies [started],
    the second [already_running], and exactly one process is spawned
    for the camera. *)
Theorem start_race streams cameraId s between :
  cameraId ∈ map Stream.id streams ->
  Stream.activeStreams s !! cameraId = None ->
  Forall (foreign cameraId) between ->
  let ffmpeg := length (Stream.processes s) in
  let cameraDir := Stream.path_join Stream.hlsDir cameraId in
  Stream.trace (snd (Stream.start streams cameraId s))
  = (Stream.trace s
     ++ [Stream.MapHas cameraId; Stream.ExistsSync cameraDir]
     ++ (if bool_decide (cameraDir ∈ Stream.directories s) then []
         else [Stream.MkdirSync cameraDir])
     ++ [Stream.Spawn ffmpeg;
         Stream.On ffmpeg "stderr.data";
         Stream.On ffmpeg "error";
         Stream.On ffmpeg "close";
         Stream.MapSet cameraId ffmpeg])%list
  /\ exists replies s2,
       Stream.run streams
         (Stream.GetStart cameraId :: between ++ [Stream.GetStart cameraId]) s
       = ((Some (Stream.started cameraId) :: replies
           ++ [Some (Stream.already_running cameraId)])%list, s2)
       /\ length replies = length between
       /\ Stream.activeStreams s2 !! cameraId = Some ffmpeg
       /\ spawned_for cameraId s2 = S (spawned_for cameraId s).
Proof.
  intros K E F ffmpeg cameraDir.
  destruct (find_known _ _ K) as [stream Fd].
  rewrite (start_fresh _ _ _ _ Fd E). split; [reflexivity|].
  rewrite run_cons, deliver_start, (start_fresh _ _ _ _ Fd E), run_app.
  destruct (run_foreign streams cameraId between
              (after_start stream cameraId s) F) as [A N].
  pose proof (run_length streams between (after_start stream cameraId s))
    as L.
  destruct (Stream.run streams between (after_start stream cameraId s))
    as [rs s1].
  cbn [fst snd] in A, N, L.
  assert (Stream.activeStreams s1 !! cameraId = Some ffmpeg) as R.
  { rewrite A. cbn. apply lookup_insert_eq. }
  rewrite run_cons, deliver_start, (start_running _ _ _ _ _ Fd R).
  cbn [Stream.run]. unfold Stream.pure.
  exists rs. eexists. split; [reflexivity|]. split; [exact L|].
  split; [exact R|].
  change (spawned_for cameraId (Stream.effect (Stream.MapHas cameraId) s1))
    with (spawned_for cameraId s1).
  rewrite N. unfold spawned_for, after_start.
  cbn -[Stream.ffmpeg_args Stream.path_join].
  rewrite List.filter_app, length_app.
  cbn -[Stream.ffmpeg_args Stream.path_join]. unfold for_camera at 2.
  cbn -[Stream.ffmpeg_args Stream.path_join].
  rewrite bool_decide_eq_true_2 by reflexivity. cbn. lia.
Qed.

Lemma start_race_witness :
  exists replies s2,
    Stream.run sample_streams
      [Stream.GetStart "cambox11"; Stream.GetStatus "cambox11";
       Stream.GetStart "cambox11"] Stream.boot
    = ((Some (Stream.started "cambox11") :: replies
        ++ [Some (Stream.already_running "cambox11")])%list, s2)
    /\ length replies = 1
    /\ Stream.activeStreams s2 !! "cambox11" = Some 0
    /\ spawned_for "cambox11" s2 = 1.
Proof.
  apply (start_race sample_streams "cambox11" Stream.boot
           [Stream.GetStatus "cambox11"]).
  - cbn. apply list_elem_of_singleton. reflexivity.
  - reflexivity.
  - repeat constructor.
Defined.

(** * Properties of the Digest client *)

(** ** The two requests *)

Lemma collect_step challenge params :
  collect challenge params
  = match Regex.exec challenge with
    | Some (key, raw, rest) => collect rest (store_param params key raw)
    | None => params
    end.
Proof.
  funelim (collect challenge params).
  - rewrite e. reflexivity.
  - rewrite e. reflexivity.
Qed.

Lemma fetch_rejected targetUrl options w message :
  network w (sent w) (probe targetUrl options) = Throw message ->
  fetchWithDigest targetUrl options w
  = (Throw message, after_fetch (probe targetUrl options) w).
Proof.
  intros N. unfold fetchWithDigest, bind, fetch.
  fold (probe targetUrl options). rewrite N. reflexivity.
Qed.

Lemma fetch_passthrough targetUrl options w r1 :
  network w (sent w) (probe targetUrl options) = Ok r1 ->
  status r1 <> 401%Z ->
  fetchWithDigest targetUrl options w
  = (Ok r1, after_fetch (probe targetUrl options) w).
Proof.
  intros N S. unfold fetchWithDigest, bind, fetch.
  fold (probe targetUrl options). rewrite N.
  destruct (Z.eqb_spec (status r1) 401) as [E|_]; [contradiction|].
  reflexivity.
Qed.

Lemma fetch_challenged targetUrl options w r1 :
  network w (sent w) (probe targetUrl options) = Ok r1 ->
  status r1 = 401%Z ->
  fetchWithDigest targetUrl options w
  = match parseDigestHeader (headers r1 !! "www-authenticate") with
    | Throw message =>
        (Throw message, after_fetch (probe targetUrl options) w)
    | Ok params =>
        match authenticate params (default "GET" (opt_method options))
                (pathname targetUrl ++ search targetUrl)
                (opt_username options) (opt_password options)
                (after_fetch (probe targetUrl options) w) with
        | (Throw message, w1) => (Throw message, w1)
        | (Ok authHeader, w1) =>
            fetch (retry targetUrl options authHeader) w1
        end
    end.
Proof.
  intros N S. unfold fetchWithDigest, bind, fetch at 1.
  fold (probe targetUrl options). rewrite N, S, Z.eqb_refl.
  cbn [negb]. unfold lift.
  fold (after_fetch (probe targetUrl options) w).
  destruct (parseDigestHeader (headers r1 !! "www-authenticate"));
    reflexivity.
Qed.

(** [authenticate] touches nothing but the random source. *)
Lemma authenticate_world params method digestUri username password w :
  let w1 := snd (authenticate params method digestUri username password w) in
  network w1 = network w /\ sent w1 = sent w.
Proof.
  unfold authenticate.
  destruct (JS.falsy username || JS.falsy password); cbn; auto.
Qed.

Lemma fetch_retried targetUrl options w r1 params authHeader w1 :
  network w (sent w) (probe targetUrl options) = Ok r1 ->
  status r1 = 401%Z ->
  parseDigestHeader (headers r1 !! "www-authenticate") = Ok params ->
  authenticate params (default "GET" (opt_method options))
    (pathname targetUrl ++ search targetUrl)
    (opt_username options) (opt_password options)
    (after_fetch (probe targetUrl options) w) = (Ok authHeader, w1) ->
  fst (fetchWithDigest targetUrl options w)
  = network w (sent w ++ [probe targetUrl options])
      (retry targetUrl options authHeader)
  /\ sent (snd (fetchWithDigest targetUrl options w))
     = (sent w ++ [probe targetUrl options;
                   retry targetUrl options authHeader])%list.
Proof.
  intros N S P A. rewrite (fetch_challenged _ _ _ _ N S), P, A.
  pose proof (authenticate_world params (default "GET" (opt_method options))
                (pathname targetUrl ++ search targetUrl)
                (opt_username options) (opt_password options)
                (after_fetch (probe targetUrl options) w)) as W.
  rewrite A in W. cbn in W. destruct W as [Wn Ws].
  unfold fetch. cbn [fst snd sent]. rewrite Wn, Ws, <- app_assoc.
  split; reflexivity.
Qed.

(** C8: [fetchWithDigest] sends the probe and at most one retry.  When
    the probe is answered with a status other than 401, that response
    is the result and nothing more is sent.  When it is answered 401
    and the digest is computed, the retry goes out once, with the URL,
    the method and the other options of the probe and its headers plus
    [Authorization], and whatever the network answers to it is the
    result, untouched, be it an error status or another 401. *)
Theorem at_most_two_requests targetUrl options w :
  let req1 := probe targetUrl options in
  let out := fetchWithDigest targetUrl options w in
  (sent (snd out) = (sent w ++ [req1])%list
   \/ exists authHeader,
        sent (snd out)
        = (sent w ++ [req1; retry targetUrl options authHeader])%list)
  /\ (forall r1,
        network w (sent w) req1 = Ok r1 -> status r1 <> 401%Z ->
        fst out = Ok r1 /\ sent (snd out) = (sent w ++ [req1])%list)
  /\ (forall r1 params authHeader w1,
        network w (sent w) req1 = Ok r1 -> status r1 = 401%Z ->
        parseDigestHeader (headers r1 !! "www-authenticate") = Ok params ->
        authenticate params (req_method req1)
          (pathname targetUrl ++ search targetUrl)
          (opt_username options) (opt_password options)
          (after_fetch req1 w) = (Ok authHeader, w1) ->
        let req2 := retry targetUrl options authHeader in
        sent (snd out) = (sent w ++ [req1; req2])%list
        /\ fst out = network w (sent w ++ [req1]) req2
        /\ req_url req2 = req_url req1
        /\ req_method req2 = req_method req1
        /\ req_options req2 = req_options req1
        /\ req_headers req2
           = Some (<["authorization" := authHeader]>
                     (default ∅ (req_headers req1)))).
Proof.
  intros req1 out. subst req1 out. split; [|split].
  - destruct (network w (sent w) (probe targetUrl options)) as [r1|m] eqn:N.
    + destruct (Z.eq_dec (status r1) 401%Z) as [S|S].
      * rewrite (fetch_challenged _ _ _ _ N S).
        destruct (parseDigestHeader (headers r1 !! "www-authenticate"))
          as [params|m] eqn:P; [|left; reflexivity].
        destruct (authenticate params (default "GET" (opt_method options))
                    (pathname targetUrl ++ search targetUrl)
                    (opt_username options) (opt_password options)
                    (after_fetch (probe targetUrl options) w))
          as [[authHeader|m] w1] eqn:A.
        -- right. exists authHeader.
           pose proof (fetch_retried _ _ _ _ _ _ _ N S P A) as [_ R].
           rewrite (fetch_challenged _ _ _ _ N S), P, A in R. exact R.
        -- left.
           pose proof (authenticate_world params
                         (default "GET" (opt_method options))
                         (pathname targetUrl ++ search targetUrl)
                         (opt_username options) (opt_password options)
                         (after_fetch (probe targetUrl options) w)) as W.
           rewrite A in W. cbn in W. destruct W as [_ Ws]. exact Ws.
      * rewrite (fetch_passthrough _ _ _ _ N S). left. reflexivity.
    + rewrite (fetch_rejected _ _ _ _ N). left. reflexivity.
  - intros r1 N S. rewrite (fetch_passthrough _ _ _ _ N S). auto.
  - intros r1 params authHeader w1 N S P A.
    destruct (fetch_retried _ _ _ _ _ _ _ N S P A) as [R1 R2].
    cbn zeta. repeat split; assumption.
Qed.

Lemma at_most_two_requests_witness :
  fst (fetchWithDigest ptz_url ptz_options
         (mkWorld always_401 [] counting 0))
  = Ok (mkResponse 401 {["www-authenticate" := challenge_R_N]} "")
  /\ length (sent (snd (fetchWithDigest ptz_url ptz_options
                          (mkWorld always_401 [] counting 0)))) = 2.
Proof.
  pose proof (at_most_two_requests ptz_url ptz_options
                (mkWorld always_401 [] counting 0)) as (_ & _ & H).
  destruct (authenticate (collect (JS.slice_from challenge_R_N 7) ∅) "GET"
              (pathname ptz_url ++ search ptz_url) (Some "u") (Some "p")
              (after_fetch (probe ptz_url ptz_options)
                 (mkWorld always_401 [] counting 0)))
    as [[authHeader|m] w1] eqn:A; [|discriminate A].
  destruct (H (mkResponse 401 {["www-authenticate" := challenge_R_N]} "")
              (collect (JS.slice_from challenge_R_N 7) ∅) authHeader w1)
    as (S & R & _).
  - reflexivity.
  - reflexivity.
  - reflexivity.
  - exact A.
  - rewrite S, R. split; reflexivity.
Defined.

(** ** What [authenticate] computes *)

Lemma authenticate_ok params method digestUri username password w :
  username <> "" -> password <> "" ->
  let realm := JS.interpolate (params !! "realm") in
  let nonce := JS.interpolate (params !! "nonce") in
  let qop := JS.interpolate (params !! "qop") in
  let cnonce := cnonce_of w in
  let ha1 := Spec.HA1 md5 username realm password in
  let ha2 := Spec.HA2 md5 method digestUri in
  authenticate params method digestUri (Some username) (Some password) w
  = (Ok (Spec.authorization username realm nonce digestUri
           (Spec.response_with_cnonce md5 ha1 nonce Spec.nc cnonce qop ha2)
           qop Spec.nc cnonce),
     mkWorld (network w) (sent w) (random w) (cursor w + 8)).
Proof.
  intros U P. unfold authenticate.
  destruct username as [|u0 u]; [contradiction|].
  destruct password as [|p0 p]; [contradiction|].
  reflexivity.
Qed.

Lemma authenticate_missing params method digestUri username password w :
  JS.falsy username || JS.falsy password = true ->
  authenticate params method digestUri username password w
  = (Throw MissingCredentials, w).
Proof. intros F. unfold authenticate. rewrite F. reflexivity. Qed.

Example authenticate_sample :
  fst (authenticate params_R_N "GET" "/axis-cgi/com/ptz.cgi?pan=1"
         (Some "u") (Some "p") (mkWorld quiet [] counting 0))
  = Ok ("Digest username=" ++ JS.quoted "u" ++ ", realm=" ++ JS.quoted "R"
        ++ ", nonce=" ++ JS.quoted "N"
        ++ ", uri=" ++ JS.quoted "/axis-cgi/com/ptz.cgi?pan=1"
        ++ ", algorithm=MD5, response="
        ++ JS.quoted "5fbdcab18cb41bf307d9220f026cd8cc"
        ++ ", qop=auth, nc=00000001, cnonce="
        ++ JS.quoted "0001020304050607").
Proof. vm_compute. reflexivity. Qed.

Example response_without_cnonce_sample :
  Spec.response_as_written md5 (Spec.HA1 md5 "u" "R" "p") "N" "00000001"
    "auth" (Spec.HA2 md5 "GET" "/axis-cgi/com/ptz.cgi?pan=1")
  = "c831ae0b9dac4552ada8b35df1b62af8".
Proof. vm_compute. reflexivity. Qed.

(** C1, as stated, fails on the round trip of section 8: the response
    sent is 5fbdcab1..., the hash that includes the client nonce, and
    the hash without it is c831ae0b.... *)
Lemma response_as_specified_counterexample : ~ response_as_specified.
Proof.
  intros C.
  destruct (C params_R_N "GET" "/axis-cgi/com/ptz.cgi?pan=1" "u" "p"
              (mkWorld quiet [] counting 0) "R" "N" "auth")
    as (header & H & F); try reflexivity; try discriminate.
  rewrite authenticate_sample in H. injection H as <-.
  vm_compute in F. discriminate F.
Qed.

(** C1, amended: for every challenge with realm, nonce and qop, every
    method, digest URI, non-empty username and non-empty password, the
    client computes HA1 = md5(username : realm : password) and
    HA2 = md5(method : digestURI), and the response field of the
    Authorization header is md5(HA1 : nonce : nc : cnonce : qop : HA2)
    with nc = 00000001 and cnonce the hex of 8 fresh random bytes, which
    the header sends along; in [fetchWithDigest] the digest URI handed
    to this computation is the path of the target followed by its query
    string. *)
Theorem authenticate_digest
    params method digestUri username password w realm nonce qop :
  params !! "realm" = Some realm ->
  params !! "nonce" = Some nonce ->
  params !! "qop" = Some qop ->
  username <> "" -> password <> "" ->
  let nc := "00000001" in
  let cnonce := cnonce_of w in
  let ha1 := md5 (username ++ ":" ++ realm ++ ":" ++ password) in
  let ha2 := md5 (method ++ ":" ++ digestUri) in
  let response :=
    md5 (ha1 ++ ":" ++ nonce ++ ":" ++ nc ++ ":" ++ cnonce ++ ":" ++ qop
         ++ ":" ++ ha2) in
  fst (authenticate params method digestUri (Some username) (Some password) w)
  = Ok (Spec.authorization username realm nonce digestUri response
          qop nc cnonce)
  /\ forall targetUrl options r1,
       network w (sent w) (probe targetUrl options) = Ok r1 ->
       status r1 = 401%Z ->
       parseDigestHeader (headers r1 !! "www-authenticate") = Ok params ->
       opt_username options = Some username ->
       opt_password options = Some password ->
       req_method (probe targetUrl options) = method ->
       pathname targetUrl ++ search targetUrl = digestUri ->
       sent (snd (fetchWithDigest targetUrl options w))
       = (sent w
          ++ [probe targetUrl options;
              retry targetUrl options
                (Spec.authorization username realm nonce digestUri response
                   qop nc cnonce)])%list.
Proof.
  intros Hr Hn Hq U P nc cnonce ha1 ha2 response. split.
  - rewrite (authenticate_ok _ _ _ _ _ _ U P), Hr, Hn, Hq. reflexivity.
  - intros targetUrl options r1 N S Pd Ou Op M D.
    eapply (fetch_retried targetUrl options w r1 params); try eassumption.
    rewrite Ou, Op, D. cbn in M. rewrite M.
    rewrite (authenticate_ok _ _ _ _ _ _ U P), Hr, Hn, Hq. reflexivity.
Qed.

Lemma authenticate_digest_witness :
  fst (authenticate params_R_N "GET" "/axis-cgi/com/ptz.cgi?pan=1"
         (Some "u") (Some "p") (mkWorld quiet [] counting 0))
  = Ok (Spec.authorization "u" "R" "N" "/axis-cgi/com/ptz.cgi?pan=1"
          (md5 (md5 "u:R:p" ++ ":N:00000001:0001020304050607:auth:"
                ++ md5 "GET:/axis-cgi/com/ptz.cgi?pan=1"))
          "auth" "00000001" "0001020304050607").
Proof.
  apply (authenticate_digest params_R_N "GET" "/axis-cgi/com/ptz.cgi?pan=1"
           "u" "p" (mkWorld quiet [] counting 0) "R" "N" "auth");
    try reflexivity; discriminate.
Defined.

(** ** The hash algorithm *)

Example sha256_challenge_sample :
  exists header,
    fst (authenticate params_sha256 "GET" "/axis-cgi/com/ptz.cgi?pan=1"
           (Some "u") (Some "p") (mkWorld quiet [] counting 0)) = Ok header
    /\ field "algorithm" header = Some "MD5"
    /\ field "response" header = Some "5fbdcab18cb41bf307d9220f026cd8cc".
Proof. eexists. split; [reflexivity|]. vm_compute. split; reflexivity. Qed.

(** C9, as stated, fails: to a challenge that names SHA-256 the client
    still answers with the 32 hex digits of the MD5 digest. *)
Lemma hashes_as_challenged_counterexample : ~ hashes_as_challenged.
Proof.
  intros C.
  destruct (C params_sha256 "GET" "/axis-cgi/com/ptz.cgi?pan=1" "u" "p"
              (mkWorld quiet [] counting 0) sha256)
    as (header & H & F); try reflexivity; try discriminate.
  vm_compute in H. injection H as <-.
  vm_compute in F. discriminate F.
Qed.

(** C9, amended: the client computes HA1, HA2 and the response with
    MD5 and announces algorithm=MD5 whatever the challenge says: the
    header it builds does not depend on the algorithm parameter of the
    challenge, and with credentials it is the MD5 digest header. *)
Theorem md5_whatever_algorithm
    params algorithm method digestUri username password w :
  authenticate (<["algorithm" := algorithm]> params) method digestUri
    username password w
  = authenticate (delete "algorithm" params) method digestUri
      username password w
  /\ forall u p,
       username = Some u -> password = Some p -> u <> "" -> p <> "" ->
       let realm := JS.interpolate (params !! "realm") in
       let nonce := JS.interpolate (params !! "nonce") in
       let qop := JS.interpolate (params !! "qop") in
       fst (authenticate (<["algorithm" := algorithm]> params) method
              digestUri username password w)
       = Ok (Spec.authorization u realm nonce digestUri
               (Spec.response_with_cnonce md5 (Spec.HA1 md5 u realm p)
                  nonce Spec.nc (cnonce_of w) qop
                  (Spec.HA2 md5 method digestUri))
               qop Spec.nc (cnonce_of w)).
Proof.
  split.
  - unfold authenticate.
    rewrite !lookup_insert_ne, !lookup_delete_ne by discriminate.
    reflexivity.
  - intros u p -> -> U P realm nonce qop.
    rewrite (authenticate_ok _ _ _ _ _ _ U P).
    rewrite !lookup_insert_ne by discriminate. reflexivity.
Qed.

(** ** Challenges that are not Digest challenges, and challenges with
    no nonce *)

Example no_nonce_sample :
  let out := fetchWithDigest ptz_url ptz_options
               (mkWorld no_nonce_camera [] counting 0) in
  fst out = Ok (mkResponse 200 ∅ "ok")
  /\ length (sent (snd out)) = 2
  /\ ((fun r => req_headers r ≫= lookup "authorization") <$> sent (snd out))
     = [None;
        Some (Spec.authorization "u" "R" "undefined"
                "/axis-cgi/com/ptz.cgi?pan=1"
                "b57c6acb18a7a112d1b6193d852bff7f" "auth" "00000001"
                "0001020304050607")].
Proof. vm_compute. repeat split. Qed.

(** C2, as stated, fails: the retry goes out, with the nonce rendered
    as the text undefined. *)
Lemma rejects_missing_nonce_counterexample : ~ rejects_missing_nonce.
Proof.
  intros C.
  destruct (C ptz_url ptz_options (mkWorld no_nonce_camera [] counting 0)
              (mkResponse 401 {["www-authenticate" := challenge_no_nonce]} "")
              challenge_no_nonce
              (collect (JS.slice_from challenge_no_nonce 7) ∅))
    as [H _]; try reflexivity.
  destruct no_nonce_sample as [S _]. rewrite S in H. discriminate H.
Qed.

Lemma parse_not_digest h :
  JS.startsWith h "Digest " = false ->
  parseDigestHeader (Some h) = Throw ProtocolError.
Proof.
  intros H. unfold parseDigestHeader. rewrite H, orb_true_r. reflexivity.
Qed.

Lemma parse_digest h :
  JS.startsWith h "Digest " = true ->
  parseDigestHeader (Some h) = Ok (collect (JS.slice_from h 7) ∅).
Proof.
  intros H. unfold parseDigestHeader. rewrite H.
  destruct h; [discriminate H|]. reflexivity.
Qed.

(** C2, amended: a 401 whose WWW-Authenticate header is absent or does
    not begin with the Digest scheme ends in ProtocolError, and the
    probe is the only request sent.  A Digest challenge that lacks a
    nonce is not rejected: with credentials present the retry is sent
    once, its Authorization header carrying the text undefined as
    nonce, and the answer to it is the result. *)
Theorem challenge_without_nonce targetUrl options w r1 :
  network w (sent w) (probe targetUrl options) = Ok r1 ->
  status r1 = 401%Z ->
  let out := fetchWithDigest targetUrl options w in
  ((headers r1 !! "www-authenticate" = None
    \/ exists h, headers r1 !! "www-authenticate" = Some h
                 /\ JS.startsWith h "Digest " = false) ->
   fst out = Throw ProtocolError
   /\ sent (snd out) = (sent w ++ [probe targetUrl options])%list)
  /\ (forall h params username password,
        headers r1 !! "www-authenticate" = Some h ->
        JS.startsWith h "Digest " = true ->
        parseDigestHeader (Some h) = Ok params ->
        params !! "nonce" = None ->
        opt_username options = Some username -> username <> "" ->
        opt_password options = Some password -> password <> "" ->
        let method := req_method (probe targetUrl options) in
        let digestUri := pathname targetUrl ++ search targetUrl in
        let realm := JS.interpolate (params !! "realm") in
        let qop := JS.interpolate (params !! "qop") in
        let cnonce := cnonce_of w in
        let req2 :=
          retry targetUrl options
            (Spec.authorization username realm "undefined" digestUri
               (Spec.response_with_cnonce md5
                  (Spec.HA1 md5 username realm password)
                  "undefined" Spec.nc cnonce qop
                  (Spec.HA2 md5 method digestUri))
               qop Spec.nc cnonce) in
        fst out = network w (sent w ++ [probe targetUrl options]) req2
        /\ sent (snd out)
           = (sent w ++ [probe targetUrl options; req2])%list).
Proof.
  intros N S out. subst out. split.
  - intros H. rewrite (fetch_challenged _ _ _ _ N S).
    destruct H as [-> | (h & -> & H)].
    + split; reflexivity.
    + rewrite (parse_not_digest _ H). split; reflexivity.
  - intros h params username password Hh Hd Hp Hn Ou U Op P.
    cbn zeta.
    eapply (fetch_retried targetUrl options w r1 params); auto.
    + rewrite Hh. exact Hp.
    + rewrite Ou, Op, (authenticate_ok _ _ _ _ _ _ U P), Hn. reflexivity.
Qed.

Lemma challenge_without_nonce_witness :
  fst (fetchWithDigest ptz_url ptz_options
         (mkWorld basic_camera [] counting 0))
  = Throw ProtocolError
  /\ sent (snd (fetchWithDigest ptz_url ptz_options
                  (mkWorld basic_camera [] counting 0)))
     = [probe ptz_url ptz_options].
Proof.
  apply (challenge_without_nonce ptz_url ptz_options
           (mkWorld basic_camera [] counting 0)
           (mkResponse 401
              {["www-authenticate" := "Basic realm=" ++ JS.quoted "R"]} "")).
  - reflexivity.
  - reflexivity.
  - right. eexists. split; reflexivity.
Defined.

(** ** The tokenizer on well-formed challenges *)

Lemma sapp_cons x (a b : string) : String x a ++ b = String x (a ++ b).
Proof. reflexivity. Qed.

Lemma sapp_nil_l (a : string) : "" ++ a = a.
Proof. reflexivity. Qed.

Lemma sapp_assoc (a b c : string) : (a ++ b) ++ c = a ++ (b ++ c).
Proof.
  induction a as [|x a IH]; [reflexivity|].
  rewrite !sapp_cons, IH. reflexivity.
Qed.

Lemma sapp_nil_r (a : string) : a ++ "" = a.
Proof.
  induction a as [|x a IH]; [reflexivity|].
  rewrite sapp_cons, IH. reflexivity.
Qed.

Lemma sapp_length (a b : string) :
  String.length (a ++ b) = String.length a + String.length b.
Proof.
  induction a as [|x a IH]; [reflexivity|].
  rewrite sapp_cons. simpl. rewrite IH. reflexivity.
Qed.

Lemma substring_prefix (a b : string) :
  String.substring 0 (String.length a) (a ++ b) = a.
Proof.
  induction a as [|x a IH].
  - destruct b; reflexivity.
  - rewrite sapp_cons. simpl. rewrite IH. reflexivity.
Qed.

Lemma substring_skip (a b : string) n :
  String.substring (String.length a) n (a ++ b) = String.substring 0 n b.
Proof.
  induction a as [|x a IH]; [reflexivity|].
  rewrite sapp_cons. simpl. exact IH.
Qed.

Lemma rev_append_app (s acc : string) :
  JS.rev_append s acc = JS.reverse s ++ acc.
Proof.
  unfold JS.reverse. revert acc.
  induction s as [|c s IH]; intros acc; simpl; [reflexivity|].
  rewrite (IH (String c acc)), (IH (String c "")), sapp_assoc. reflexivity.
Qed.

Lemma reverse_cons c s : JS.reverse (String c s) = JS.reverse s ++ String c "".
Proof. unfold JS.reverse at 1. simpl. apply rev_append_app. Qed.

Lemma reverse_snoc s c : JS.reverse (s ++ String c "") = String c (JS.reverse s).
Proof.
  induction s as [|x s IH]; [reflexivity|].
  rewrite sapp_cons, !reverse_cons, IH. reflexivity.
Qed.

Lemma reverse_involutive s : JS.reverse (JS.reverse s) = s.
Proof.
  induction s as [|x s IH]; [reflexivity|].
  rewrite reverse_cons, reverse_snoc, IH. reflexivity.
Qed.

Lemma reverse_quoted v : JS.reverse (JS.quoted v) = JS.quoted (JS.reverse v).
Proof. unfold JS.quoted. rewrite reverse_cons, reverse_snoc. reflexivity. Qed.

Lemma trim_quoted v : JS.trim (JS.quoted v) = JS.quoted v.
Proof.
  unfold JS.trim. change (JS.drop_while JS.is_space (JS.quoted v))
    with (JS.quoted v).
  rewrite reverse_quoted.
  change (JS.drop_while JS.is_space (JS.quoted (JS.reverse v)))
    with (JS.quoted (JS.reverse v)).
  rewrite reverse_quoted, reverse_involutive. reflexivity.
Qed.

Lemma slice_quoted v : JS.slice (JS.quoted v) 1 (-1) = v.
Proof.
  unfold JS.slice, JS.quoted. cbn [String.length].
  rewrite sapp_length. cbn [String.length].
  set (n := String.length v).
  replace (Z.to_nat (if (1 <? 0)%Z then _ else _)) with 1.
  2:{ cbn [Z.ltb Z.compare]. lia. }
  replace (Z.to_nat _) with n.
  2:{ cbn [Z.ltb Z.compare]. lia. }
  cbn [String.substring]. apply substring_prefix.
Qed.

(** Quoted values lose their quotes, and nothing else. *)
Lemma store_quoted params key v :
  store_param params key (JS.quoted v) = JS.obj_set params key v.
Proof.
  unfold store_param. rewrite trim_quoted.
  assert (JS.startsWith (JS.quoted v) (String JS.dquote "") = true) as ->.
  { cbn. destruct (v ++ String JS.dquote ""); reflexivity. }
  assert (JS.endsWith (JS.quoted v) (String JS.dquote "") = true) as ->.
  { unfold JS.endsWith. rewrite reverse_quoted. cbn.
    destruct (JS.reverse v ++ String JS.dquote ""); reflexivity. }
  cbn [andb]. rewrite slice_quoted. reflexivity.
Qed.

Lemma span_stop p a c rest :
  all p a = true -> p c = false ->
  JS.span p (a ++ String c rest) = (a, String c rest).
Proof.
  intros A C. induction a as [|x a IH].
  - rewrite sapp_nil_l. simpl. rewrite C. reflexivity.
  - simpl in A. apply andb_prop in A. destruct A as [X A].
    rewrite sapp_cons. simpl. rewrite X, (IH A). reflexivity.
Qed.

Lemma exec_skip sep s :
  all (fun c => negb (JS.is_word c)) sep = true ->
  Regex.exec (sep ++ s) = Regex.exec s.
Proof.
  induction sep as [|c sep IH]; [reflexivity|].
  simpl. intros A. apply andb_prop in A. destruct A as [C A].
  apply negb_true_iff in C. rewrite <- (IH A), ?sapp_cons.
  simpl. unfold Regex.match_at at 1. simpl. rewrite C. reflexivity.
Qed.

Lemma quoted_app v rest :
  JS.quoted v ++ rest = String JS.dquote (v ++ String JS.dquote rest).
Proof.
  unfold JS.quoted. rewrite sapp_cons, sapp_assoc, sapp_cons, sapp_nil_l.
  reflexivity.
Qed.

Lemma value_quoted v rest :
  v <> "" -> all (JS.is_not JS.dquote) v = true ->
  Regex.value_at (JS.quoted v ++ rest) = Some (JS.quoted v, rest).
Proof.
  intros V Vq. rewrite quoted_app. unfold Regex.value_at.
  replace (Ascii.eqb JS.dquote JS.dquote) with true by reflexivity.
  rewrite (span_stop _ _ _ _ Vq) by reflexivity.
  destruct v as [|v0 v]; [contradiction|]. reflexivity.
Qed.

Lemma match_quoted key v rest :
  key <> "" -> all JS.is_word key = true ->
  v <> "" -> all (JS.is_not JS.dquote) v = true ->
  Regex.match_at (key ++ "=" ++ JS.quoted v ++ rest)
  = Some (key, JS.quoted v, rest).
Proof.
  intros K Kw V Vq. unfold Regex.match_at.
  rewrite (sapp_cons "="%char "" (JS.quoted v ++ rest)), sapp_nil_l.
  rewrite (span_stop _ _ _ _ Kw) by reflexivity.
  destruct key as [|k0 key]; [contradiction|].
  replace (Ascii.eqb "="%char "="%char) with true by reflexivity.
  rewrite (value_quoted _ _ V Vq). reflexivity.
Qed.

Lemma collect_quoted sep key v rest params :
  all (fun c => negb (JS.is_word c)) sep = true ->
  key <> "" -> all JS.is_word key = true ->
  v <> "" -> all (JS.is_not JS.dquote) v = true ->
  collect (sep ++ key ++ "=" ++ JS.quoted v ++ rest) params
  = collect rest (JS.obj_set params key v).
Proof.
  intros S K Kw V Vq. rewrite collect_step, (exec_skip _ _ S).
  assert (Regex.exec (key ++ "=" ++ JS.quoted v ++ rest)
          = Some (key, JS.quoted v, rest)) as ->.
  { pose proof (match_quoted _ _ rest K Kw V Vq) as M.
    destruct (key ++ "=" ++ JS.quoted v ++ rest) as [|c0 t];
      [discriminate M|].
    simpl. rewrite M. reflexivity. }
  rewrite store_quoted. reflexivity.
Qed.

Lemma collect_empty params : collect "" params = params.
Proof. rewrite collect_step. reflexivity. Qed.

Lemma collect_more pairs params :
  Forall well_formed pairs ->
  collect (more_pairs pairs) params = fold_left set_pair pairs params.
Proof.
  intros W. revert params.
  induction W as [|[key v] rest (K & Kw & V & Vq) _ IH]; intros params.
  - apply collect_empty.
  - simpl more_pairs. rewrite (collect_quoted ", " key v) by auto.
    rewrite IH. reflexivity.
Qed.

Lemma collect_challenge pairs params :
  Forall well_formed pairs ->
  collect (challenge_of pairs) params = fold_left set_pair pairs params.
Proof.
  intros W. destruct W as [|[key v] rest (K & Kw & V & Vq) W].
  - apply collect_empty.
  - simpl challenge_of.
    rewrite <- (sapp_nil_l (key ++ "=" ++ JS.quoted v ++ more_pairs rest)).
    rewrite (collect_quoted "" key v) by auto.
    rewrite (collect_more _ _ W). reflexivity.
Qed.

Lemma startsWith_app p x : JS.startsWith (p ++ x) p = true.
Proof.
  unfold JS.startsWith. induction p as [|c p IH].
  - destruct x; reflexivity.
  - rewrite sapp_cons. simpl.
    destruct (ascii_dec c c) as [_|N]; [exact IH|contradiction].
Qed.

Lemma slice_from_digest x : JS.slice_from ("Digest " ++ x) 7 = x.
Proof.
  unfold JS.slice_from, JS.slice. rewrite sapp_length.
  set (n := String.length x).
  replace (Z.to_nat (if (7 <? 0)%Z then _ else _)) with (String.length "Digest ").
  2:{ change (7 <? 0)%Z with false. cbv iota. simpl String.length. lia. }
  replace (Z.to_nat _) with n.
  2:{ change (7 <? 0)%Z with false. cbv iota. simpl String.length.
      destruct (Z.ltb_spec (Z.of_nat (7 + n)) 0); lia. }
  rewrite substring_skip. subst n.
  rewrite <- (sapp_nil_r x) at 2. apply substring_prefix.
Qed.

(** C10: a header that begins with the Digest scheme and a space is
    always parsed, whatever follows: the result is a mapping, empty for
    a bare scheme, without a nonce when the challenge has none; for a
    challenge made of keys with quoted values the mapping holds each
    value without its quotes.  [parseDigestHeader] throws only the
    ProtocolError, and only for a header that is absent or does not
    begin with the scheme. *)
Theorem parseDigestHeader_total :
  (forall h,
      JS.startsWith h "Digest " = true ->
      exists params, parseDigestHeader (Some h) = Ok params)
  /\ (forall header message,
        parseDigestHeader header = Throw message ->
        message = ProtocolError
        /\ (header = None
            \/ exists h, header = Some h
                         /\ JS.startsWith h "Digest " = false))
  /\ (forall pairs,
        Forall well_formed pairs ->
        parseDigestHeader (Some ("Digest " ++ challenge_of pairs))
        = Ok (fold_left set_pair pairs ∅))
  /\ parseDigestHeader (Some "Digest ") = Ok ∅
  /\ parseDigestHeader (Some challenge_no_nonce)
     = Ok (<["realm" := "R"]> (<["qop" := "auth"]> ∅)).
Proof.
  split; [|split; [|split; [|split]]].
  - intros h H. rewrite (parse_digest _ H). eauto.
  - intros [h|] message; [|intros [= <-]; auto].
    destruct (JS.startsWith h "Digest ") eqn:S.
    + rewrite (parse_digest _ S). discriminate.
    + rewrite (parse_not_digest _ S). intros [= <-]. eauto.
  - intros pairs W. rewrite parse_digest by apply startsWith_app.
    rewrite slice_from_digest, (collect_challenge _ _ W). reflexivity.
  - vm_compute. reflexivity.
  - vm_compute. reflexivity.
Qed.

Example parse_camera_challenge :
  parseDigestHeader
    (Some ("Digest realm=" ++ JS.quoted "AXIS_ACCC8E000000"
           ++ ", nonce=" ++ JS.quoted "000562fdY892713c1d"
           ++ ", algorithm=MD5, qop=" ++ JS.quoted "auth"))
  = Ok (<["realm" := "AXIS_ACCC8E000000"]>
          (<["nonce" := "000562fdY892713c1d"]>
             (<["algorithm" := "MD5"]> (<["qop" := "auth"]> ∅)))).
Proof. vm_compute. reflexivity. Qed.

(** * Further properties of the streaming server *)

(** ** The registry and its iteration order *)

Lemma map_fst_fmap {A B : Type} (l : list (A * B)) : map fst l = l.*1.
Proof. induction l as [|x l IH]; [reflexivity|]. cbn. rewrite IH. reflexivity. Qed.

Lemma set_entry_keys key value l x :
  x ∈ (Stream.set_entry key value l).*1 <-> x = key \/ x ∈ l.*1.
Proof.
  induction l as [|[k v] l IH]; cbn.
  - rewrite list_elem_of_singleton. split; [auto|]. intros [?|H]; [done|].
    inversion H.
  - destruct (String.eqb_spec k key) as [->|N]; cbn;
      rewrite !elem_of_cons; [tauto|]. rewrite IH. tauto.
Qed.

Lemma set_entry_spec key value l :
  NoDup l.*1 ->
  NoDup (Stream.set_entry key value l).*1
  /\ list_to_map (Stream.set_entry key value l)
     = <[key := value]> (list_to_map l : gmap string nat).
Proof.
  induction l as [|[k v] l IH]; cbn; intros D.
  - split; [|reflexivity]. apply NoDup_singleton.
  - apply NoDup_cons in D. destruct D as [Dk D].
    destruct (String.eqb_spec k key) as [->|N]; cbn.
    + split; [apply NoDup_cons; auto|]. rewrite insert_insert_eq. reflexivity.
    + destruct (IH D) as [D' M]. split.
      * apply NoDup_cons. split; [|exact D'].
        rewrite set_entry_keys. intros [?|?]; [congruence|contradiction].
      * rewrite M. apply insert_insert_ne. congruence.
Qed.

Lemma delete_entry_spec key l :
  NoDup l.*1 ->
  NoDup (Stream.delete_entry key l).*1
  /\ list_to_map (Stream.delete_entry key l)
     = delete key (list_to_map l : gmap string nat).
Proof.
  unfold Stream.delete_entry.
  induction l as [|[k v] l IH]; simpl; intros D.
  - split; [constructor|]. rewrite delete_empty. reflexivity.
  - apply NoDup_cons in D. destruct D as [Dk D]. destruct (IH D) as [D' M].
    destruct (String.eqb_spec k key) as [->|N]; simpl.
    + split; [exact D'|]. rewrite M, delete_insert_eq. reflexivity.
    + split.
      * apply NoDup_cons. split; [|exact D']. intros H. apply Dk.
        apply list_elem_of_fmap in H. destruct H as ([k' v'] & -> & H).
        apply list_elem_of_fmap. exists (k', v'). split; [reflexivity|].
        apply list_elem_of_In in H.
        apply filter_In in H. apply list_elem_of_In. tauto.
      * rewrite M. symmetry. apply delete_insert_ne. congruence.
Qed.

Lemma entries_effect e s :
  Stream.entries (Stream.effect e s) = Stream.replay (Stream.entries s) e.
Proof. unfold Stream.entries. cbn. apply fold_left_app. Qed.

Lemma logged_boot : logged Stream.boot.
Proof. split; [constructor|reflexivity]. Qed.

Lemma preserves_pure {A : Type} P (a : A) : preserves P (Stream.pure a).
Proof. intros s H. exact H. Qed.

Lemma preserves_seq {A B : Type} P (h : Stream.Handler A)
    (k : A -> Stream.Handler B) :
  preserves P h -> (forall a, preserves P (k a)) ->
  preserves P (Stream.seq_ h k).
Proof.
  intros Hh Hk s H. unfold Stream.seq_. specialize (Hh s H).
  destruct (h s) as [a s1]. apply Hk. exact Hh.
Qed.

Create HintDb logged.

Lemma logged_read e s :
  Stream.replay (Stream.entries s) e = Stream.entries s ->
  logged s -> logged (Stream.effect e s).
Proof.
  intros R [D M]. unfold logged. rewrite entries_effect, R. auto.
Qed.

Lemma logged_map_has k : preserves logged (Stream.map_has k).
Proof. intros s. apply logged_read. reflexivity. Qed.

Lemma logged_map_get k : preserves logged (Stream.map_get k).
Proof. intros s. apply logged_read. reflexivity. Qed.

Lemma logged_existsSync p : preserves logged (Stream.existsSync p).
Proof. intros s. apply logged_read. reflexivity. Qed.

Lemma logged_mkdirSync p : preserves logged (Stream.mkdirSync p).
Proof. intros s H. apply (logged_read (Stream.MkdirSync p)); [reflexivity|exact H]. Qed.

Lemma logged_spawn c a : preserves logged (Stream.spawn c a).
Proof. intros s H. apply (logged_read (Stream.Spawn _)); [reflexivity|exact H]. Qed.

Lemma logged_on p ev cb : preserves logged (Stream.on p ev cb).
Proof. intros s H. apply (logged_read (Stream.On _ _)); [reflexivity|exact H]. Qed.

Lemma logged_kill p sig : preserves logged (Stream.kill p sig).
Proof. intros s H. apply (logged_read (Stream.Kill _ _)); [reflexivity|exact H]. Qed.

Lemma logged_map_set k v : preserves logged (Stream.map_set k v).
Proof.
  intros s [D M]. unfold logged. cbn [snd Stream.map_set].
  rewrite entries_effect. cbn [Stream.replay].
  change (Stream.entries (Stream.mkServer _ _ _ (Stream.trace s)))
    with (Stream.entries s).
  rewrite map_fst_fmap in *. destruct (set_entry_spec k v _ D) as [D' M'].
  split; [exact D'|]. rewrite M', M. reflexivity.
Qed.

Lemma logged_map_delete k : preserves logged (Stream.map_delete k).
Proof.
  intros s [D M]. unfold logged. cbn [snd Stream.map_delete].
  rewrite entries_effect. cbn [Stream.replay].
  change (Stream.entries (Stream.mkServer _ _ _ (Stream.trace s)))
    with (Stream.entries s).
  rewrite map_fst_fmap in *. destruct (delete_entry_spec k _ D) as [D' M'].
  split; [exact D'|]. rewrite M', M. reflexivity.
Qed.

#[local] Hint Resolve preserves_pure logged_map_has logged_map_get
  logged_existsSync logged_mkdirSync logged_spawn logged_on logged_kill
  logged_map_set logged_map_delete : logged.

Ltac preserve :=
  first
    [ apply preserves_pure
    | solve [auto with logged]
    | apply preserves_seq; [preserve | intros ?; preserve]
    | match goal with
      | |- preserves _ (if ?b then _ else _) => destruct b; preserve
      | |- preserves _ (match ?x with _ => _ end) => destruct x; preserve
      end ].

Lemma logged_start streams k : preserves logged (Stream.start streams k).
Proof. unfold Stream.start. preserve. Qed.

Lemma logged_stop k : preserves logged (Stream.stop k).
Proof. unfold Stream.stop. preserve. Qed.

Lemma logged_status k : preserves logged (Stream.status k).
Proof. unfold Stream.status. preserve. Qed.

Lemma logged_call_all cbs : preserves logged (Stream.call_all cbs).
Proof.
  induction cbs as [|c cs IH]; cbn [Stream.call_all]; [preserve|].
  apply preserves_seq; [destruct c; cbn; auto with logged|intros _; exact IH].
Qed.

Lemma logged_emit p ev : preserves logged (Stream.emit p ev).
Proof.
  intros s H. unfold Stream.emit.
  destruct (Stream.processes s !! p); [|exact H].
  apply logged_call_all. exact H.
Qed.

Lemma logged_deliver streams e : preserves logged (Stream.deliver streams e).
Proof.
  destruct e; cbn [Stream.deliver]; apply preserves_seq;
    try (intros ?; apply preserves_pure).
  - apply logged_start.
  - apply logged_stop.
  - apply logged_status.
  - apply logged_emit.
Qed.

Lemma logged_run streams events : preserves logged (Stream.run streams events).
Proof.
  induction events as [|e es IH]; cbn [Stream.run]; [apply preserves_pure|].
  apply preserves_seq; [apply logged_deliver|intros r].
  apply preserves_seq; [exact IH|intros rs]. apply preserves_pure.
Qed.

(** Distinct cameras never share a process. *)
Lemma supervised_injective s k1 k2 p :
  supervised s ->
  Stream.activeStreams s !! k1 = Some p ->
  Stream.activeStreams s !! k2 = Some p ->
  k1 = k2.
Proof.
  intros H H1 H2. destruct (H _ _ H1) as (q1 & P1 & O1).
  destruct (H _ _ H2) as (q2 & P2 & O2).
  rewrite P1 in P2. injection P2 as <-. rewrite O1 in O2.
  injection O2 as E. exact E.
Qed.

Lemma values_NoDup (l : list (string * nat)) :
  NoDup l.*1 ->
  (forall k1 k2 p, (k1, p) ∈ l -> (k2, p) ∈ l -> k1 = k2) ->
  NoDup l.*2.
Proof.
  induction l as [|[k p] l IH]; cbn; intros D I; [constructor|].
  apply NoDup_cons in D. destruct D as [Dk D]. apply NoDup_cons. split.
  - intros H. apply list_elem_of_fmap in H. destruct H as ([k' p'] & E & H).
    cbn in E. subst p'. apply Dk.
    assert (k = k') as ->.
    { apply (I k k' p); [apply list_elem_of_here|].
      apply list_elem_of_further. exact H. }
    apply list_elem_of_fmap. exists (k', p). auto.
  - apply IH; [exact D|]. intros k1 k2 q H1 H2.
    apply (I k1 k2 q); apply list_elem_of_further; assumption.
Qed.

Lemma kill_all_spec l s :
  NoDup l.*2 ->
  let s' := snd (Stream.kill_all l s) in
  Stream.activeStreams s' = Stream.activeStreams s
  /\ Stream.directories s' = Stream.directories s
  /\ length (Stream.processes s') = length (Stream.processes s)
  /\ forall i,
       Stream.processes s' !! i
       = if bool_decide (i ∈ l.*2)
         then signalled <$> Stream.processes s !! i
         else Stream.processes s !! i.
Proof.
  revert s. induction l as [|[k p] l IH]; intros s D; cbn zeta.
  - split; [reflexivity|]. split; [reflexivity|]. split; [reflexivity|].
    intros i. rewrite bool_decide_eq_false_2; [reflexivity|].
    intros H. inversion H.
  - cbn in D. apply NoDup_cons in D. destruct D as [Dp D].
    set (s1 := Stream.effect (Stream.Kill p "SIGTERM")
                 (Stream.update_process p signalled s)).
    assert (snd (Stream.kill_all ((k, p) :: l) s)
            = snd (Stream.kill_all l s1)) as -> by reflexivity.
    destruct (IH s1 D) as (A & Dr & L & P). cbn zeta in *.
    rewrite A, Dr, L. split; [reflexivity|]. split; [reflexivity|]. split.
    + subst s1. cbn. apply length_alter.
    + intros i. rewrite P. subst s1. cbn [Stream.effect Stream.processes
        Stream.update_process fmap list_fmap].
      rewrite list_lookup_alter.
      destruct (decide (p = i)) as [->|N].
      * rewrite (bool_decide_eq_false_2 _ Dp).
        rewrite bool_decide_eq_true_2 by apply list_elem_of_here.
        reflexivity.
      * destruct (bool_decide (i ∈ l.*2)) eqn:B.
        -- apply bool_decide_eq_true_1 in B.
           rewrite bool_decide_eq_true_2
             by (apply list_elem_of_further; exact B).
           reflexivity.
        -- apply bool_decide_eq_false_1 in B.
           rewrite bool_decide_eq_false_2; [reflexivity|].
           intros H. cbn in H. apply elem_of_cons in H.
           destruct H as [H|H]; [symmetry in H|]; contradiction.
Qed.

(** X1: in every state the streaming server can reach, the SIGINT
    handler sends SIGTERM once to the process of every registered
    session and to no other process, leaves the registry as it is
    (nothing is deleted before the exit), and exits with code 0. *)
Theorem sigint_terminates_sessions streams events :
  let s := snd (Stream.run streams events Stream.boot) in
  let s' := snd (Stream.sigint s) in
  fst (Stream.sigint s) = 0
  /\ Stream.activeStreams s' = Stream.activeStreams s
  /\ length (Stream.processes s') = length (Stream.processes s)
  /\ (forall cameraId process,
        Stream.activeStreams s !! cameraId = Some process ->
        exists p,
          Stream.processes s !! process = Some p
          /\ Stream.processes s' !! process = Some (signalled p))
  /\ (forall process,
        (forall cameraId,
            Stream.activeStreams s !! cameraId <> Some process) ->
        Stream.processes s' !! process = Stream.processes s !! process).
Proof.
  intros s s'.
  assert (supervised s) as Hs by apply supervised_run, supervised_boot.
  assert (logged s) as [D M] by apply logged_run, logged_boot.
  rewrite map_fst_fmap in D.
  assert (forall k p, (k, p) ∈ Stream.entries s
                      <-> Stream.activeStreams s !! k = Some p) as In.
  { intros k p. rewrite <- M. apply elem_of_list_to_map. exact D. }
  assert (NoDup (Stream.entries s).*2) as D2.
  { apply values_NoDup; [exact D|]. intros k1 k2 p H1 H2.
    apply In in H1, H2. eapply supervised_injective; eassumption. }
  assert (s' = snd (Stream.kill_all (Stream.entries s) s)) as E.
  { subst s'. unfold Stream.sigint, Stream.seq_.
    destruct (Stream.kill_all (Stream.entries s) s). reflexivity. }
  assert (fst (Stream.sigint s) = 0) as C.
  { unfold Stream.sigint, Stream.seq_.
    destruct (Stream.kill_all (Stream.entries s) s). reflexivity. }
  destruct (kill_all_spec (Stream.entries s) s D2) as (A & _ & L & P).
  cbn zeta in *. rewrite <- E in *.
  split; [exact C|]. split; [exact A|]. split; [exact L|]. split.
  - intros k p R. destruct (Hs _ _ R) as (q & Q & _). exists q.
    split; [exact Q|]. rewrite P, Q.
    rewrite bool_decide_eq_true_2; [reflexivity|].
    apply list_elem_of_fmap. exists (k, p). split; [reflexivity|].
    apply In. exact R.
  - intros i N. rewrite P. rewrite bool_decide_eq_false_2; [reflexivity|].
    intros H. apply list_elem_of_fmap in H. destruct H as ([k p] & -> & H).
    apply In in H. exact (N k H).
Qed.

(** X2: in every reachable state [/health] changes nothing, its
    [activeStreams] count is the length of its [streams] list, the
    list has no camera twice, and a camera is in the list exactly when
    [/api/stream/:cameraId/status] reports it active. *)
Theorem health_agrees_with_status streams events :
  let s := snd (Stream.run streams events Stream.boot) in
  let h := fst (Stream.health s) in
  snd (Stream.health s) = s
  /\ Stream.health_activeStreams h = length (Stream.health_streams h)
  /\ NoDup (Stream.health_streams h)
  /\ forall cameraId,
       cameraId ∈ Stream.health_streams h
       <-> fst (Stream.status cameraId s) = active_reply cameraId.
Proof.
  intros s h.
  assert (logged s) as [D M] by apply logged_run, logged_boot.
  subst h. cbn [fst snd Stream.health Stream.health_activeStreams
                Stream.health_streams].
  split; [reflexivity|]. split; [|split].
  - rewrite <- M, length_map. apply map_size_list_to_map.
    rewrite <- map_fst_fmap. exact D.
  - exact D.
  - intros k. rewrite map_fst_fmap.
    destruct (Stream.activeStreams s !! k) as [p|] eqn:R.
    + split; [intros _; exact (status_active _ _ _ R)|]. intros _.
      rewrite <- M in R. apply elem_of_list_to_map_2 in R.
      apply list_elem_of_fmap. exists (k, p). auto.
    + split.
      * intros H. exfalso. revert H. apply not_elem_of_list_to_map.
        rewrite M. exact R.
      * rewrite (status_inactive _ _ R). discriminate.
Qed.

(** ** Processes and replies *)

Lemma deliver_accounting streams e s :
  length (Stream.processes (snd (Stream.deliver streams e s)))
  = length (Stream.processes s)
    + (if is_started (fst (Stream.deliver streams e s)) then 1 else 0).
Proof.
  destruct e as [c|c|c|p ev]; cbn [Stream.deliver]; unfold Stream.seq_.
  - destruct (find (fun x => String.eqb (Stream.id x) c) streams)
      as [stream|] eqn:K.
    + destruct (Stream.activeStreams s !! c) as [q|] eqn:E.
      * rewrite (start_running _ _ _ _ _ K E). cbn. lia.
      * rewrite (start_fresh _ _ _ _ K E). cbn. rewrite length_app. cbn. lia.
    + rewrite (start_unknown _ _ _ K). cbn. lia.
  - destruct (Stream.activeStreams s !! c) as [q|] eqn:E.
    + destruct (stop_present c s q E) as (s' & -> & _ & Hp & _). cbn.
      rewrite Hp, length_alter. lia.
    + rewrite stop_absent by exact E. cbn. lia.
  - cbn. lia.
  - unfold Stream.emit. destruct (Stream.processes s !! p) as [q|]; cbn;
      [|lia].
    match goal with |- context [Stream.call_all ?cbs s] =>
      destruct (call_all_deletes cbs s) as (P & _ & _);
      destruct (Stream.call_all cbs s) as [u s1] end.
    cbn in *. rewrite P. lia.
Qed.

(** X3: over any sequence of requests and process events, from any
    state, the number of processes spawned is the number of replies
    with status [started]: no other request or event spawns, and
    every [started] reply stands for one new process. *)
Theorem spawn_accounting streams events s :
  length (Stream.processes (snd (Stream.run streams events s)))
  = length (Stream.processes s)
    + length (List.filter is_started (fst (Stream.run streams events s))).
Proof.
  revert s. induction events as [|e es IH]; intros s.
  - cbn. lia.
  - rewrite run_cons. pose proof (deliver_accounting streams e s) as D.
    destruct (Stream.deliver streams e s) as [r s1]. specialize (IH s1).
    destruct (Stream.run streams es s1) as [rs s2]. cbn [fst snd] in *.
    cbn [List.filter]. destruct (is_started r); cbn [length]; lia.
Qed.

(** ** Cameras are independent *)

Lemma status_determined k s1 s2 :
  Stream.activeStreams s1 !! k = Stream.activeStreams s2 !! k ->
  fst (Stream.status k s1) = fst (Stream.status k s2).
Proof. intros E. rewrite !status_reply. cbn. rewrite E. reflexivity. Qed.

Lemma emit_other_camera c k p ev s :
  supervised s ->
  Stream.activeStreams s !! c = Some p -> c <> k ->
  Stream.activeStreams (snd (Stream.emit p ev s)) !! k
  = Stream.activeStreams s !! k.
Proof.
  intros H R N. destruct (H _ _ R) as (q & Q & O).
  unfold Stream.emit. rewrite Q, O. unfold observers.
  cbn [List.filter fst snd map].
  destruct (String.eqb "stderr.data" ev), (String.eqb "error" ev),
    (String.eqb "close" ev); cbn;
    rewrite ?lookup_delete_ne by exact N; reflexivity.
Qed.

(** X4: in every reachable state, a request or event about another
    camera leaves the registration, the status reply and the spawned
    processes of a camera as they are, and so does the [close] or
    [error] event of the process of another camera's session. *)
Theorem cameras_independent streams events cameraId :
  let s := snd (Stream.run streams events Stream.boot) in
  (forall e,
      foreign cameraId e ->
      let s' := snd (Stream.deliver streams e s) in
      Stream.activeStreams s' !! cameraId = Stream.activeStreams s !! cameraId
      /\ fst (Stream.status cameraId s') = fst (Stream.status cameraId s)
      /\ spawned_for cameraId s' = spawned_for cameraId s)
  /\ (forall other process event,
        other <> cameraId ->
        Stream.activeStreams s !! other = Some process ->
        let s' := snd (Stream.emit process event s) in
        Stream.activeStreams s' !! cameraId
        = Stream.activeStreams s !! cameraId
        /\ fst (Stream.status cameraId s') = fst (Stream.status cameraId s)).
Proof.
  intros s. split.
  - intros e F s'. destruct (deliver_foreign streams cameraId e s F) as [A N].
    split; [exact A|]. split; [|exact N]. apply status_determined, A.
  - intros other p ev N R s'.
    assert (supervised s) as H by apply supervised_run, supervised_boot.
    pose proof (emit_other_camera _ _ _ ev _ H R N) as A.
    split; [exact A|]. apply status_determined, A.
Qed.

(** ** Restarting a session *)

(** X5: in every reachable state where a known camera has a session,
    [start] after [stop], and [start] after the [close] event of the
    session's process, both reply [started] and register a process
    that did not exist before; [stop] leaves the old process in the
    table with one more SIGTERM. *)
Theorem restart streams events cameraId process :
  let s := snd (Stream.run streams events Stream.boot) in
  cameraId ∈ map Stream.id streams ->
  Stream.activeStreams s !! cameraId = Some process ->
  let fresh := length (Stream.processes s) in
  let stopped := snd (Stream.stop cameraId s) in
  let ended := snd (Stream.emit process "close" s) in
  process < fresh
  /\ fst (Stream.start streams cameraId stopped) = Stream.started cameraId
  /\ Stream.activeStreams (snd (Stream.start streams cameraId stopped))
     !! cameraId = Some fresh
  /\ Stream.processes (snd (Stream.start streams cameraId stopped)) !! process
     = signalled <$> Stream.processes s !! process
  /\ fst (Stream.start streams cameraId ended) = Stream.started cameraId
  /\ Stream.activeStreams (snd (Stream.start streams cameraId ended))
     !! cameraId = Some fresh.
Proof.
  intros s K R fresh stopped ended.
  assert (supervised s) as H by apply supervised_run, supervised_boot.
  destruct (H _ _ R) as (q & Q & O).
  destruct (find_known _ _ K) as [stream F].
  split; [exact (lookup_lt_Some _ _ _ Q)|].
  destruct (stop_present cameraId s process R) as (s1 & S1 & Ha & Hp & _).
  assert (stopped = s1) as -> by (subst stopped; rewrite S1; reflexivity).
  assert (Stream.activeStreams s1 !! cameraId = None) as N1
    by (rewrite Ha; apply lookup_delete_eq).
  assert (length (Stream.processes s1) = fresh) as L1
    by (rewrite Hp; apply length_alter).
  rewrite (start_fresh _ _ _ _ F N1). cbn [fst snd after_start
    Stream.activeStreams Stream.processes].
  rewrite L1, lookup_insert_eq.
  split; [reflexivity|]. split; [reflexivity|]. split.
  { rewrite lookup_app_l by (rewrite L1; exact (lookup_lt_Some _ _ _ Q)).
    rewrite Hp, list_lookup_alter_eq. reflexivity. }
  subst ended.
  rewrite (emit_termination cameraId process "close" s q Q O) by auto.
  cbn [snd].
  rewrite start_fresh with (stream := stream);
    [|exact F|cbn; apply lookup_delete_eq].
  cbn [fst snd after_start Stream.activeStreams Stream.processes
       Stream.effect].
  rewrite lookup_insert_eq. split; reflexivity.
Qed.

Lemma restart_witness :
  fst (Stream.start sample_streams "cambox11"
         (snd (Stream.stop "cambox11"
                 (snd (Stream.run sample_streams
                         [Stream.GetStart "cambox11"] Stream.boot)))))
  = Stream.started "cambox11".
Proof.
  destruct (restart sample_streams [Stream.GetStart "cambox11"]
              "cambox11" 0) as (_ & H & _).
  - cbn. apply list_elem_of_singleton. reflexivity.
  - reflexivity.
  - exact H.
Defined.

(** ** A late termination event *)

Lemma run_state streams e es s :
  snd (Stream.run streams (e :: es) s)
  = snd (Stream.run streams es (snd (Stream.deliver streams e s))).
Proof.
  rewrite run_cons. destruct (Stream.deliver streams e s) as [r s1].
  cbn [snd]. destruct (Stream.run streams es s1). reflexivity.
Qed.

Lemma deliver_state streams e s :
  snd (Stream.deliver streams e s)
  = match e with
    | Stream.GetStart c => snd (Stream.start streams c s)
    | Stream.GetStop c => snd (Stream.stop c s)
    | Stream.GetStatus c => snd (Stream.status c s)
    | Stream.Emit p ev => snd (Stream.emit p ev s)
    end.
Proof.
  destruct e as [c|c|c|p ev]; cbn [Stream.deliver]; unfold Stream.seq_.
  - destruct (Stream.start streams c s). reflexivity.
  - destruct (Stream.stop c s). reflexivity.
  - reflexivity.
  - destruct (Stream.emit p ev s). reflexivity.
Qed.

(** X6: the listeners delete by camera id, not by process.  For a
    known camera without a session: start, stop, start again, and then
    the [close] event of the first process leaves the camera
    unregistered and reported inactive, although the second process
    has not been signalled and still has its listeners; a further
    [start] spawns a third process for the camera. *)
Theorem late_close_removes_new_session streams cameraId s :
  cameraId ∈ map Stream.id streams ->
  Stream.activeStreams s !! cameraId = None ->
  let first := length (Stream.processes s) in
  let second := S first in
  let s4 :=
    snd (Stream.run streams
           [Stream.GetStart cameraId; Stream.GetStop cameraId;
            Stream.GetStart cameraId; Stream.Emit first "close"] s) in
  Stream.activeStreams s4 !! cameraId = None
  /\ fst (Stream.status cameraId s4) = inactive_reply
  /\ (exists p,
        Stream.processes s4 !! second = Some p
        /\ Stream.listeners p = observers cameraId
        /\ Stream.signals p = [])
  /\ fst (Stream.start streams cameraId s4) = Stream.started cameraId
  /\ spawned_for cameraId (snd (Stream.start streams cameraId s4))
     = 3 + spawned_for cameraId s.
Proof.
  intros K E first second s4.
  destruct (find_known _ _ K) as [stream F].
  assert (exists s3,
             s4 = snd (Stream.emit first "close" s3)
             /\ Stream.activeStreams s3 !! cameraId = Some second
             /\ Stream.processes s3
                = (alter signalled first
                     (Stream.processes (after_start stream cameraId s))
                   ++ [Stream.mkProcess "ffmpeg"
                         (Stream.ffmpeg_args (Stream.url stream)
                            (Stream.path_join Stream.hlsDir cameraId))
                         (observers cameraId) []])%list) as (s3 & E4 & R3 & P3).
  { subst s4. rewrite !run_state. cbn [Stream.run Stream.pure snd].
    rewrite !deliver_state, (start_fresh _ _ _ _ F E). cbn [snd].
    assert (Stream.activeStreams (after_start stream cameraId s) !! cameraId
            = Some first) as R1 by apply lookup_insert_eq.
    destruct (stop_present cameraId _ first R1) as (s2 & -> & Ha & Hp & _).
    cbn [snd].
    assert (Stream.activeStreams s2 !! cameraId = None) as N2
      by (rewrite Ha; apply lookup_delete_eq).
    rewrite (start_fresh _ _ _ _ F N2). cbn [snd].
    exists (after_start stream cameraId s2). split; [reflexivity|].
    assert (length (Stream.processes s2) = second) as L2.
    { rewrite Hp, length_alter. cbn. rewrite length_app. cbn.
      subst second first. lia. }
    cbn [after_start Stream.activeStreams Stream.processes].
    rewrite L2, lookup_insert_eq, Hp. split; reflexivity. }
  assert (exists q, Stream.processes s3 !! first = Some q
                    /\ Stream.listeners q = observers cameraId) as (q & Q & O).
  { rewrite P3. cbn [after_start Stream.processes].
    rewrite lookup_app_l
      by (rewrite length_alter, length_app; cbn; subst first; lia).
    rewrite list_lookup_alter_eq, list_lookup_middle by reflexivity.
    eexists. split; reflexivity. }
  rewrite (emit_termination cameraId first "close" s3 q Q O) in E4 by auto.
  cbn [snd] in E4.
  assert (Stream.activeStreams s4 !! cameraId = None) as N4
    by (rewrite E4; cbn; apply lookup_delete_eq).
  assert (Stream.processes s4 = Stream.processes s3) as P4
    by (rewrite E4; reflexivity).
  split; [exact N4|]. split; [exact (status_inactive _ _ N4)|]. split.
  { rewrite P4, P3. eexists. split.
    - apply list_lookup_middle. rewrite length_alter.
      cbn [after_start Stream.processes]. rewrite length_app. cbn.
      subst second first. lia.
    - split; reflexivity. }
  rewrite (start_fresh _ _ _ _ F N4). split; [reflexivity|].
  unfold spawned_for. cbn [snd after_start Stream.processes].
  rewrite P4, P3. cbn [after_start Stream.processes].
  rewrite !List.filter_app, !length_app.
  rewrite filter_alter_length by reflexivity.
  rewrite List.filter_app, length_app.
  cbn -[Stream.ffmpeg_args Stream.path_join observers].
  unfold for_camera.
  cbn -[Stream.ffmpeg_args Stream.path_join observers bool_decide].
  rewrite !bool_decide_eq_true_2 by reflexivity. cbn. lia.
Qed.

Lemma late_close_removes_new_session_witness :
  fst (Stream.status "cambox11"
         (snd (Stream.run sample_streams
                 [Stream.GetStart "cambox11"; Stream.GetStop "cambox11";
                  Stream.GetStart "cambox11"; Stream.Emit 0 "close"]
                 Stream.boot)))
  = inactive_reply.
Proof.
  destruct (late_close_removes_new_session sample_streams "cambox11"
              Stream.boot) as (_ & H & _).
  - cbn. apply list_elem_of_singleton. reflexivity.
  - reflexivity.
  - exact H.
Defined.

(** ** Output directories *)

Lemma housed_boot : housed Stream.boot.
Proof.
  split; [set_solver|]. intros k p H. cbn in H. rewrite lookup_empty in H.
  discriminate.
Qed.

Lemma housed_shrink s s' :
  Stream.directories s' = Stream.directories s ->
  (forall k p, Stream.activeStreams s' !! k = Some p ->
               Stream.activeStreams s !! k = Some p) ->
  housed s -> housed s'.
Proof.
  intros D A [H0 H]. split; rewrite D; [exact H0|].
  intros k p R. exact (H k p (A k p R)).
Qed.

Lemma housed_deliver streams e s :
  housed s ->
  housed (snd (Stream.deliver streams e s))
  /\ Stream.directories s ⊆ Stream.directories (snd (Stream.deliver streams e s)).
Proof.
  intros H. destruct e as [c|c|c|p ev]; cbn [Stream.deliver];
    unfold Stream.seq_.
  - destruct (find (fun x => String.eqb (Stream.id x) c) streams)
      as [stream|] eqn:K.
    + destruct (Stream.activeStreams s !! c) as [q|] eqn:E.
      * rewrite (start_running _ _ _ _ _ K E). split; [exact H|reflexivity].
      * rewrite (start_fresh _ _ _ _ K E). cbn [snd Stream.pure].
        destruct H as [H0 H]. split; [|cbn; set_solver].
        split; cbn; [set_solver|]. intros k p R.
        apply lookup_insert_Some in R. destruct R as [[<- _]|[_ R]];
          [set_solver|]. specialize (H _ _ R). set_solver.
    + rewrite (start_unknown _ _ _ K). split; [exact H|reflexivity].
  - destruct (Stream.activeStreams s !! c) as [q|] eqn:E.
    + destruct (stop_present c s q E) as (s' & -> & Ha & _ & Hd). cbn.
      split; [|rewrite Hd; reflexivity].
      apply (housed_shrink s); [exact Hd| |exact H].
      intros k p R. rewrite Ha in R. apply lookup_delete_Some in R. tauto.
    + rewrite stop_absent by exact E. split; [exact H|reflexivity].
  - split; [exact H|reflexivity].
  - unfold Stream.emit. destruct (Stream.processes s !! p) as [q|]; cbn;
      [|split; [exact H|reflexivity]].
    match goal with |- context [Stream.call_all ?cbs s] =>
      destruct (call_all_deletes cbs s) as (_ & D & A);
      destruct (Stream.call_all cbs s) as [u s1] end.
    cbn in *. split; [|rewrite D; reflexivity].
    apply (housed_shrink s); assumption.
Qed.

(** X7: in every reachable state the directory [hls] and the output
    directory of every registered camera exist, and no request or
    event removes a directory. *)
Theorem directories_in_place streams events more :
  let s := snd (Stream.run streams events Stream.boot) in
  Stream.hlsDir ∈ Stream.directories s
  /\ (forall cameraId process,
        Stream.activeStreams s !! cameraId = Some process ->
        Stream.path_join Stream.hlsDir cameraId ∈ Stream.directories s)
  /\ Stream.directories s
     ⊆ Stream.directories (snd (Stream.run streams more s)).
Proof.
  intros s.
  assert (forall es s0, housed s0 ->
            housed (snd (Stream.run streams es s0))
            /\ Stream.directories s0
               ⊆ Stream.directories (snd (Stream.run streams es s0))) as R.
  { induction es as [|e es IH]; intros s0 H0.
    - split; [exact H0|reflexivity].
    - rewrite run_cons. destruct (housed_deliver streams e s0 H0) as [H1 D1].
      destruct (Stream.deliver streams e s0) as [r s1]. cbn [snd] in *.
      destruct (IH s1 H1) as [H2 D2].
      destruct (Stream.run streams es s1) as [rs s2]. cbn [snd] in *.
      split; [exact H2|]. etransitivity; eassumption. }
  destruct (R events Stream.boot housed_boot) as [[H0 H] _].
  split; [exact H0|]. split; [exact H|].
  apply R. split; assumption.
Qed.

(** ** Content types *)







(** * Properties of the desktop shell *)

Lemma stopServer_stopped s :
  Electron.serverProcess s = None -> Electron.stopServer s = s.
Proof. intros H. unfold Electron.stopServer. rewrite H. reflexivity. Qed.

Lemma handle_all_stopped platform events s :
  Electron.serverProcess s = None ->
  Electron.serverProcess (Electron.handle_all platform events s) = None
  /\ Electron.killed (Electron.handle_all platform events s)
     = Electron.killed s.
Proof.
  revert s. induction events as [|e es IH]; intros s H; [auto|].
  cbn [Electron.handle_all fold_left].
  change (fold_left _ es ?x) with (Electron.handle_all platform es x).
  assert (Electron.serverProcess (Electron.handle platform e s) = None
          /\ Electron.killed (Electron.handle platform e s)
             = Electron.killed s) as [H1 K1].
  { destruct e; cbn; rewrite (stopServer_stopped _ H);
      [destruct (negb _)|]; auto. }
  destruct (IH _ H1) as [H2 K2]. rewrite K2. auto.
Qed.

(** X9: whatever the platform, after any non-empty sequence of
    [window-all-closed] and [before-quit] events the proxy process is
    no longer held, and it has been killed exactly once, by the first
    of the events. *)
Theorem server_killed_once platform e events s p :
  Electron.serverProcess s = Some p ->
  let s' := Electron.handle_all platform (e :: events) s in
  Electron.serverProcess s' = None
  /\ Electron.killed s' = (Electron.killed s ++ [p])%list.
Proof.
  intros H s'. subst s'. cbn [Electron.handle_all fold_left].
  change (fold_left _ events ?x) with (Electron.handle_all platform events x).
  assert (Electron.serverProcess (Electron.handle platform e s) = None
          /\ Electron.killed (Electron.handle platform e s)
             = (Electron.killed s ++ [p])%list) as [H1 K1].
  { destruct e; cbn; unfold Electron.stopServer; rewrite H;
      [destruct (negb _)|]; auto. }
  destruct (handle_all_stopped platform events _ H1) as [H2 K2].
  rewrite K2. auto.
Qed.

Lemma server_killed_once_witness :
  Electron.killed
    (Electron.handle_all "linux"
       [Electron.WindowAllClosed; Electron.BeforeQuit]
       (Electron.mkShell (Some 7) [] false))
  = [7].
Proof.
  destruct (server_killed_once "linux" Electron.WindowAllClosed
              [Electron.BeforeQuit] (Electron.mkShell (Some 7) [] false) 7)
    as [_ H].
  - reflexivity.
  - exact H.
Defined.

(** * Further properties of the Digest client *)

(** ** The keys of a parsed challenge *)

Lemma span_all p s a b : JS.span p s = (a, b) -> all p a = true.
Proof.
  revert a b. induction s as [|c s IH]; intros a b; simpl.
  - intros [= <- <-]. reflexivity.
  - destruct (p c) eqn:C.
    + destruct (JS.span p s) as [a' b'] eqn:E. intros [= <- <-].
      simpl. rewrite C. exact (IH _ _ eq_refl).
    + intros [= <- <-]. reflexivity.
Qed.

Lemma match_at_key s key raw rest :
  Regex.match_at s = Some (key, raw, rest) ->
  key <> "" /\ all JS.is_word key = true.
Proof.
  unfold Regex.match_at.
  destruct (JS.span JS.is_word s) as [k s1] eqn:E.
  apply span_all in E.
  destruct k as [|c k]; [discriminate|].
  destruct s1 as [|e s2]; [discriminate|].
  destruct (Ascii.eqb e "="%char); [|discriminate].
  destruct (Regex.value_at s2) as [[v r]|]; [|discriminate].
  intros [= <- <- <-]. split; [discriminate|exact E].
Qed.

Lemma exec_key s key raw rest :
  Regex.exec s = Some (key, raw, rest) ->
  key <> "" /\ all JS.is_word key = true.
Proof.
  induction s as [|c s IH]; simpl; [discriminate|].
  destruct (Regex.match_at (String c s)) as [m|] eqn:M.
  - intros [= ->]. exact (match_at_key _ _ _ _ M).
  - exact IH.
Qed.

(** What holds of the empty object and is kept by every assignment of
    the loop holds of the result. *)
Lemma collect_invariant (P : gmap string string -> Prop) :
  (forall params key raw,
      key <> "" -> all JS.is_word key = true ->
      P params -> P (store_param params key raw)) ->
  forall challenge params, P params -> P (collect challenge params).
Proof.
  intros Step challenge.
  remember (String.length challenge) as n eqn:L.
  revert challenge L. induction n as [n IH] using lt_wf_ind.
  intros challenge L params H. rewrite collect_step.
  destruct (Regex.exec challenge) as [[[key raw] rest]|] eqn:E; [|exact H].
  destruct (exec_key _ _ _ _ E) as [K W].
  apply (IH (String.length rest)); [|reflexivity|apply Step; assumption].
  subst n. exact (exec_shorter _ _ _ _ E).
Qed.

(** X10: every key of the mapping that [parseDigestHeader] returns is
    a non-empty word of letters, digits and underscores, and it is
    never [__proto__]. *)
Theorem parsed_keys_are_words header params key :
  parseDigestHeader header = Ok params ->
  is_Some (params !! key) ->
  key <> "" /\ all JS.is_word key = true /\ key <> "__proto__".
Proof.
  intros H. destruct header as [h|]; [|discriminate H].
  unfold parseDigestHeader in H.
  destruct (JS.falsy (Some h) || negb (JS.startsWith h "Digest "));
    [discriminate H|].
  injection H as <-. revert key.
  apply (collect_invariant (fun m => forall key, is_Some (m !! key) ->
                                               word_key key)).
  - intros m k raw K W Hm key. unfold store_param, JS.obj_set.
    destruct (String.eqb_spec k "__proto__") as [->|N]; [apply Hm|].
    intros S. destruct (decide (k = key)) as [<-|Nk].
    + repeat split; assumption.
    + rewrite lookup_insert_ne in S by exact Nk. apply Hm, S.
  - intros key [v S]. rewrite lookup_empty in S. discriminate.
Qed.

Lemma parsed_keys_are_words_witness :
  "nonce" <> "" /\ all JS.is_word "nonce" = true /\ "nonce" <> "__proto__".
Proof.
  apply (parsed_keys_are_words (Some challenge_R_N)
           (collect (JS.slice_from challenge_R_N 7) ∅) "nonce").
  - reflexivity.
  - vm_compute. eauto.
Defined.

(** ** The shape of the digests *)

Lemma hex_digit_is_hex d :
  (0 <= d < 16)%Z -> is_hex (Bytes.hex_digit d) = true.
Proof.
  intros H.
  assert (d = 0 \/ d = 1 \/ d = 2 \/ d = 3 \/ d = 4 \/ d = 5 \/ d = 6
          \/ d = 7 \/ d = 8 \/ d = 9 \/ d = 10 \/ d = 11 \/ d = 12
          \/ d = 13 \/ d = 14 \/ d = 15)%Z as C by lia.
  repeat (destruct C as [->|C]; [reflexivity|]). subst d. reflexivity.
Qed.

Lemma land_255_byte x : is_byte (Z.land x 255).
Proof.
  unfold is_byte. change 255%Z with (Z.ones 8).
  rewrite Z.land_ones by lia. apply Z.mod_pos_bound. lia.
Qed.

Lemma le32_bytes x : Forall is_byte (Bytes.le32 x).
Proof. repeat constructor; apply land_255_byte. Qed.

Lemma hex_spec bs :
  Forall is_byte bs ->
  String.length (Bytes.hex bs) = 2 * length bs
  /\ all is_hex (Bytes.hex bs) = true.
Proof.
  induction 1 as [|b bs B _ [L A]]; [split; reflexivity|].
  unfold is_byte in B. cbn [Bytes.hex String.length all length].
  rewrite L, A. split; [lia|].
  rewrite !hex_digit_is_hex; [reflexivity| |].
  - change 15%Z with (Z.ones 4). rewrite Z.land_ones by lia.
    apply Z.mod_pos_bound. lia.
  - rewrite Z.shiftr_div_pow2 by lia. change (2 ^ 4)%Z with 16%Z.
    split; [apply Z.div_pos; lia|]. apply Z.div_lt_upper_bound; lia.
Qed.

Lemma md5_digest_bytes msg :
  Forall is_byte (MD5.digest msg) /\ length (MD5.digest msg) = 16.
Proof.
  unfold MD5.digest.
  set (r := fold_left MD5.compress _ _). clearbody r. split.
  - repeat (apply Forall_app; split); apply le32_bytes.
  - reflexivity.
Qed.

Lemma random_bytes w :
  Forall is_byte (map (fun i => (random w i) mod 256)%Z (seq (cursor w) 8)).
Proof.
  apply Forall_forall. intros b Hb. apply list_elem_of_In in Hb.
  apply in_map_iff in Hb.
  destruct Hb as (i & <- & _). apply Z.mod_pos_bound. lia.
Qed.

(** X11: [md5] always gives 32 lowercase hexadecimal digits, and the
    client nonce is 16 of them, whatever [crypto.randomBytes]
    returns. *)
Theorem digests_are_hex value w :
  String.length (md5 value) = 32
  /\ all is_hex (md5 value) = true
  /\ String.length (cnonce_of w) = 16
  /\ all is_hex (cnonce_of w) = true.
Proof.
  destruct (md5_digest_bytes (Bytes.utf8 value)) as [B L].
  destruct (hex_spec _ B) as [L1 A1]. unfold md5. rewrite L1, L, A1.
  destruct (hex_spec _ (random_bytes w)) as [L2 A2]. unfold cnonce_of.
  rewrite L2, A2, length_map, length_seq.
  split; [reflexivity|]. split; [reflexivity|].
  split; reflexivity.
Qed.

(** ** Reading back the header that [authenticate] writes *)

Lemma all_app p a b : all p (a ++ b) = all p a && all p b.
Proof.
  induction a as [|x a IH]; [reflexivity|].
  rewrite sapp_cons. simpl. rewrite IH, andb_assoc. reflexivity.
Qed.

Lemma all_reverse p s : all p (JS.reverse s) = all p s.
Proof.
  induction s as [|x s IH]; [reflexivity|].
  rewrite reverse_cons, all_app, IH. simpl.
  rewrite andb_true_r. apply andb_comm.
Qed.

Lemma all_impl (p q : ascii -> bool) s :
  (forall c, p c = true -> q c = true) -> all p s = true -> all q s = true.
Proof.
  intros I. induction s as [|x s IH]; simpl; [reflexivity|].
  intros H. apply andb_prop in H. destruct H as [X H].
  rewrite (I _ X), (IH H). reflexivity.
Qed.

Lemma drop_while_none p s :
  all (fun c => negb (p c)) s = true -> JS.drop_while p s = s.
Proof.
  destruct s as [|x s]; simpl; [reflexivity|].
  intros H. apply andb_prop in H. destruct H as [X _].
  apply negb_true_iff in X. rewrite X. reflexivity.
Qed.

Lemma trim_without_space v :
  all (fun c => negb (JS.is_space c)) v = true -> JS.trim v = v.
Proof.
  intros H. unfold JS.trim. rewrite (drop_while_none _ _ H).
  rewrite drop_while_none by (rewrite all_reverse; exact H).
  apply reverse_involutive.
Qed.

Lemma span_end p a : all p a = true -> JS.span p a = (a, "").
Proof.
  induction a as [|x a IH]; simpl; [reflexivity|].
  intros H. apply andb_prop in H. destruct H as [X H].
  rewrite X, (IH H). reflexivity.
Qed.

Lemma span_value v rest :
  all (JS.is_not JS.comma) v = true -> ends_value rest ->
  JS.span (JS.is_not JS.comma) (v ++ rest) = (v, rest).
Proof.
  intros A [->|[r ->]].
  - rewrite sapp_nil_r. apply span_end, A.
  - apply span_stop; [exact A|reflexivity].
Qed.

Lemma bare_parts v :
  bare v ->
  exists c v', v = String c v'
               /\ Ascii.eqb c JS.dquote = false
               /\ all (JS.is_not JS.comma) v = true
               /\ all (fun c => negb (JS.is_space c)) v = true.
Proof.
  intros [N A]. destruct v as [|c v']; [contradiction|].
  exists c, v'. split; [reflexivity|].
  assert (forall x, is_bare x = true ->
            negb (JS.is_space x) = true /\ JS.is_not JS.comma x = true
            /\ JS.is_not JS.dquote x = true) as B.
  { intros x H. unfold is_bare in H. apply andb_prop in H.
    destruct H as [H H3]. apply andb_prop in H. tauto. }
  split; [|split].
  - simpl in A. apply andb_prop in A. destruct A as [X _].
    apply B in X. destruct X as (_ & _ & X). unfold JS.is_not in X.
    apply negb_true_iff in X. exact X.
  - revert A. apply all_impl. intros x H. apply B, H.
  - revert A. apply all_impl. intros x H. apply B, H.
Qed.

Lemma value_unquoted v rest :
  bare v -> ends_value rest ->
  Regex.value_at (v ++ rest) = Some (v, rest).
Proof.
  intros Bv E. destruct (bare_parts v Bv) as (c & v' & -> & Q & C & _).
  unfold Regex.value_at. rewrite (span_value _ _ C E).
  rewrite sapp_cons, Q. reflexivity.
Qed.

Lemma prefix_cons a p b s :
  String.prefix (String a p) (String b s)
  = if ascii_dec a b then String.prefix p s else false.
Proof. reflexivity. Qed.

Lemma store_bare params key v :
  bare v -> store_param params key v = JS.obj_set params key v.
Proof.
  intros Bv. destruct (bare_parts v Bv) as (c & v' & -> & Q & _ & S).
  unfold store_param. rewrite (trim_without_space _ S).
  assert (JS.startsWith (String c v') (String JS.dquote "") = false) as ->.
  { unfold JS.startsWith. rewrite prefix_cons.
    destruct (ascii_dec JS.dquote c) as [<-|_]; [discriminate Q|reflexivity]. }
  reflexivity.
Qed.

Lemma collect_unquoted sep key v rest params :
  all (fun c => negb (JS.is_word c)) sep = true ->
  key <> "" -> all JS.is_word key = true ->
  bare v -> ends_value rest ->
  collect (sep ++ key ++ "=" ++ v ++ rest) params
  = collect rest (JS.obj_set params key v).
Proof.
  intros S K Kw Bv E. rewrite collect_step, (exec_skip _ _ S).
  assert (Regex.match_at (key ++ "=" ++ v ++ rest) = Some (key, v, rest)) as M.
  { unfold Regex.match_at.
    rewrite (sapp_cons "="%char "" (v ++ rest)), sapp_nil_l.
    rewrite (span_stop _ _ _ _ Kw) by reflexivity.
    destruct key as [|k0 key]; [contradiction|].
    replace (Ascii.eqb "="%char "="%char) with true by reflexivity.
    rewrite (value_unquoted _ _ Bv E). reflexivity. }
  assert (Regex.exec (key ++ "=" ++ v ++ rest) = Some (key, v, rest)) as ->.
  { destruct (key ++ "=" ++ v ++ rest) as [|c0 t]; [discriminate M|].
    simpl. rewrite M. reflexivity. }
  rewrite (store_bare _ _ _ Bv). reflexivity.
Qed.

Lemma collect_quoted_end sep key v params :
  all (fun c => negb (JS.is_word c)) sep = true ->
  key <> "" -> all JS.is_word key = true ->
  quotable v ->
  collect (sep ++ key ++ "=" ++ JS.quoted v) params
  = JS.obj_set params key v.
Proof.
  intros S K Kw [V Vq].
  rewrite <- (sapp_nil_r (JS.quoted v)).
  rewrite (collect_quoted sep key v "" params S K Kw V Vq).
  apply collect_empty.
Qed.

Lemma hex_quotable v n :
  String.length v = S n -> all is_hex v = true -> quotable v.
Proof.
  intros L A. split; [destruct v; [discriminate L|discriminate]|].
  revert A. apply all_impl. intros c H. unfold is_hex in H.
  unfold JS.is_not, JS.dquote.
  destruct (Ascii.eqb_spec c "034"%char) as [->|_]; [discriminate H|reflexivity].
Qed.

Lemma md5_quotable value : quotable (md5 value).
Proof.
  destruct (md5_digest_bytes (Bytes.utf8 value)) as [B L].
  destruct (hex_spec _ B) as [L1 A1].
  apply (hex_quotable _ 31); [|exact A1].
  unfold md5. rewrite L1, L. reflexivity.
Qed.

Lemma cnonce_quotable w : quotable (cnonce_of w).
Proof.
  destruct (hex_spec _ (random_bytes w)) as [L A].
  apply (hex_quotable _ 15); [|exact A].
  unfold cnonce_of. rewrite L, length_map, length_seq. reflexivity.
Qed.

Lemma parse_authorization username realm nonce uri response qop cnonce :
  quotable username -> quotable realm -> quotable nonce -> quotable uri ->
  quotable response -> bare qop -> quotable cnonce ->
  parseDigestHeader
    (Some (Spec.authorization username realm nonce uri response qop
             "00000001" cnonce))
  = Ok (<["cnonce" := cnonce]>
          (<["nc" := "00000001"]>
             (<["qop" := qop]>
                (<["response" := response]>
                   (<["algorithm" := "MD5"]>
                      (<["uri" := uri]>
                         (<["nonce" := nonce]>
                            (<["realm" := realm]>
                               (<["username" := username]> ∅))))))))).
Proof.
  intros [U Uq] [R Rq] [N Nq] [I Iq] [P Pq] Bq Qc.
  unfold Spec.authorization.
  change ("Digest username=" ++ ?x)
    with ("Digest " ++ ("" ++ "username" ++ "=" ++ x)).
  rewrite parse_digest by apply startsWith_app.
  rewrite slice_from_digest.
  rewrite collect_quoted by (auto; discriminate).
  change (", realm=" ++ ?x) with (", " ++ "realm" ++ "=" ++ x).
  rewrite collect_quoted by (auto; discriminate).
  change (", nonce=" ++ ?x) with (", " ++ "nonce" ++ "=" ++ x).
  rewrite collect_quoted by (auto; discriminate).
  change (", uri=" ++ ?x) with (", " ++ "uri" ++ "=" ++ x).
  rewrite collect_quoted by (auto; discriminate).
  change (", algorithm=MD5, response=" ++ ?x)
    with (", " ++ "algorithm" ++ "=" ++ "MD5" ++ (", response=" ++ x)).
  rewrite collect_unquoted;
    [|reflexivity|discriminate|reflexivity
     |split; [discriminate|reflexivity]
     |right; eexists; reflexivity].
  change (", response=" ++ ?x) with (", " ++ "response" ++ "=" ++ x).
  rewrite collect_quoted by (auto; discriminate).
  change (", qop=" ++ ?x) with (", " ++ "qop" ++ "=" ++ x).
  rewrite collect_unquoted;
    [|reflexivity|discriminate|reflexivity|exact Bq
     |right; eexists; reflexivity].
  change (", nc=" ++ ?x) with (", " ++ "nc" ++ "=" ++ x).
  rewrite collect_unquoted;
    [|reflexivity|discriminate|reflexivity
     |split; [discriminate|reflexivity]
     |right; eexists; reflexivity].
  change (", cnonce=" ++ ?x) with (", " ++ "cnonce" ++ "=" ++ x).
  rewrite collect_quoted_end by (auto; discriminate).
  reflexivity.
Qed.

(** X12: the Authorization header that [authenticate] builds can be
    read back by [parseDigestHeader]: when username, realm, nonce and
    digest URI are non-empty and free of double quotes and the qop is
    non-empty and free of white space, commas and double quotes, the
    parsed mapping has exactly the nine fields of the header with the
    values that went in. *)
Theorem authorization_round_trip
    params method digestUri username password w :
  let realm := JS.interpolate (params !! "realm") in
  let nonce := JS.interpolate (params !! "nonce") in
  let qop := JS.interpolate (params !! "qop") in
  let response :=
    Spec.response_with_cnonce md5 (Spec.HA1 md5 username realm password)
      nonce "00000001" (cnonce_of w) qop (Spec.HA2 md5 method digestUri) in
  quotable username -> password <> "" ->
  quotable realm -> quotable nonce -> quotable digestUri -> bare qop ->
  exists header,
    fst (authenticate params method digestUri
           (Some username) (Some password) w) = Ok header
    /\ parseDigestHeader (Some header)
       = Ok (<["cnonce" := cnonce_of w]>
               (<["nc" := "00000001"]>
                  (<["qop" := qop]>
                     (<["response" := response]>
                        (<["algorithm" := "MD5"]>
                           (<["uri" := digestUri]>
                              (<["nonce" := nonce]>
                                 (<["realm" := realm]>
                                    (<["username" := username]> ∅))))))))).
Proof.
  intros realm nonce qop response U P R N I Q.
  rewrite (authenticate_ok _ _ _ _ _ _ (proj1 U) P). eexists.
  split; [reflexivity|].
  apply parse_authorization; auto.
  - apply md5_quotable.
  - apply cnonce_quotable.
Qed.

Lemma authorization_round_trip_witness :
  exists header,
    fst (authenticate params_R_N "GET" "/axis-cgi/com/ptz.cgi?pan=1"
           (Some "u") (Some "p") (mkWorld quiet [] counting 0)) = Ok header
    /\ parseDigestHeader (Some header)
       = Ok (<["cnonce" := "0001020304050607"]>
               (<["nc" := "00000001"]>
                  (<["qop" := "auth"]>
                     (<["response" := "5fbdcab18cb41bf307d9220f026cd8cc"]>
                        (<["algorithm" := "MD5"]>
                           (<["uri" := "/axis-cgi/com/ptz.cgi?pan=1"]>
                              (<["nonce" := "N"]>
                                 (<["realm" := "R"]>
                                    (<["username" := "u"]> ∅))))))))).
Proof.
  destruct (authorization_round_trip params_R_N "GET"
              "/axis-cgi/com/ptz.cgi?pan=1" "u" "p"
              (mkWorld quiet [] counting 0))
    as (header & H & P);
    try (split; [discriminate|reflexivity]); try discriminate.
  exists header. split; [exact H|]. rewrite P. vm_compute. reflexivity.
Defined.

(** ** Missing credentials *)

Lemma fetch_missing_credentials targetUrl options w r1 :
  network w (sent w) (probe targetUrl options) = Ok r1 ->
  status r1 = 401%Z ->
  JS.falsy (opt_username options) || JS.falsy (opt_password options) = true ->
  fetchWithDigest targetUrl options w
  = (Throw match parseDigestHeader (headers r1 !! "www-authenticate") with
           | Ok _ => MissingCredentials
           | Throw message => message
           end,
     after_fetch (probe targetUrl options) w).
Proof.
  intros N S F. rewrite (fetch_challenged _ _ _ _ N S).
  destruct (parseDigestHeader (headers r1 !! "www-authenticate"));
    [|reflexivity].
  rewrite (authenticate_missing _ _ _ _ _ _ F). reflexivity.
Qed.

Lemma parse_throws_protocol header message :
  parseDigestHeader header = Throw message -> message = ProtocolError.
Proof.
  destruct header as [h|]; [|intros [= <-]; reflexivity].
  unfold parseDigestHeader.
  destruct (JS.falsy (Some h) || negb (JS.startsWith h "Digest "));
    [intros [= <-]; reflexivity|discriminate].
Qed.

(** X13: with the username or the password missing, [fetchWithDigest]
    still sends the unauthenticated probe, draws no random bytes, and
    returns any answer other than 401 as it is; on a 401 the
    challenge is parsed before the credentials are looked at, so the
    failure is the protocol error for a bad challenge and the
    missing-credentials error only for a Digest challenge. *)
Theorem credentials_checked_last targetUrl options w r1 :
  network w (sent w) (probe targetUrl options) = Ok r1 ->
  JS.falsy (opt_username options) || JS.falsy (opt_password options) = true ->
  let out := fetchWithDigest targetUrl options w in
  sent (snd out) = (sent w ++ [probe targetUrl options])%list
  /\ cursor (snd out) = cursor w
  /\ (status r1 <> 401%Z -> fst out = Ok r1)
  /\ (status r1 = 401%Z ->
      fst out
      = Throw match parseDigestHeader (headers r1 !! "www-authenticate") with
              | Ok _ => MissingCredentials
              | Throw _ => ProtocolError
              end).
Proof.
  intros N F out. subst out.
  destruct (Z.eq_dec (status r1) 401%Z) as [S|S].
  - rewrite (fetch_missing_credentials _ _ _ _ N S F).
    split; [reflexivity|]. split; [reflexivity|]. split; [contradiction|].
    intros _. cbn [fst].
    destruct (parseDigestHeader (headers r1 !! "www-authenticate"))
      as [params|message] eqn:P; [reflexivity|].
    rewrite (parse_throws_protocol _ _ P). reflexivity.
  - rewrite (fetch_passthrough _ _ _ _ N S).
    split; [reflexivity|]. split; [reflexivity|]. split; [reflexivity|].
    contradiction.
Qed.

Lemma credentials_checked_last_witness :
  fst (fetchWithDigest ptz_url (mkOptions None None (Some "root") (Some "") ∅)
         (mkWorld always_401 [] counting 0))
  = Throw MissingCredentials.
Proof.
  pose proof (credentials_checked_last ptz_url
                (mkOptions None None (Some "root") (Some "") ∅)
                (mkWorld always_401 [] counting 0)
                (mkResponse 401 {["www-authenticate" := challenge_R_N]} "")
                eq_refl eq_refl) as (_ & _ & _ & H).
  rewrite (H eq_refl). reflexivity.
Defined.

(** * Properties of the proxy routes *)

Lemma fetch_sent_cases targetUrl options w :
  sent (snd (fetchWithDigest targetUrl options w))
  = (sent w ++ [probe targetUrl options])%list
  \/ exists authHeader,
       sent (snd (fetchWithDigest targetUrl options w))
       = (sent w ++ [probe targetUrl options;
                     retry targetUrl options authHeader])%list.
Proof.
  destruct (network w (sent w) (probe targetUrl options)) as [r1|m] eqn:N.
  - destruct (Z.eq_dec (status r1) 401%Z) as [S|S].
    + destruct (parseDigestHeader (headers r1 !! "www-authenticate"))
        as [params|m] eqn:P.
      * destruct (authenticate params (default "GET" (opt_method options))
                    (pathname targetUrl ++ search targetUrl)
                    (opt_username options) (opt_password options)
                    (after_fetch (probe targetUrl options) w))
          as [[authHeader|m] w1] eqn:A.
        -- right. exists authHeader.
           exact (proj2 (fetch_retried _ _ _ _ _ _ _ N S P A)).
        -- left. rewrite (fetch_challenged _ _ _ _ N S), P, A.
           pose proof (authenticate_world params
                         (default "GET" (opt_method options))
                         (pathname targetUrl ++ search targetUrl)
                         (opt_username options) (opt_password options)
                         (after_fetch (probe targetUrl options) w)) as W.
           rewrite A in W. cbn in W. destruct W as [_ Ws]. exact Ws.
      * left. rewrite (fetch_challenged _ _ _ _ N S), P. reflexivity.
    + left. rewrite (fetch_passthrough _ _ _ _ N S). reflexivity.
  - left. rewrite (fetch_rejected _ _ _ _ N). reflexivity.
Qed.

Lemma ptz_state eu ep up us ip command w :
  JS.falsy ip = false ->
  snd (Proxy.ptz eu ep up us ip command w)
  = snd (fetchWithDigest (Proxy.url_of up us (ptz_target ip command))
           (mkOptions None None (Some (Proxy.CAMERA_USERNAME eu))
              (Some (Proxy.CAMERA_PASSWORD ep)) ∅) w).
Proof.
  intros I. unfold Proxy.ptz. rewrite I. fold (ptz_target ip command).
  destruct (fetchWithDigest _ _ w) as [[r|m] w']; [|reflexivity].
  destruct (negb (Proxy.ok r)); reflexivity.
Qed.

(** X14: [GET /ptz] sends at most two requests, all of them GET
    requests to
    [http://<ip>/axis-cgi/com/ptz.cgi?<command or info=1&camera=1>]
    with no further fetch options; without an [ip] it replies 400 and
    sends nothing. *)
Theorem ptz_requests eu ep up us ip command w :
  let out := Proxy.ptz eu ep up us ip command w in
  exists new,
    sent (snd out) = (sent w ++ new)%list
    /\ length new <= 2
    /\ (JS.falsy ip = true ->
        new = [] /\ Proxy.code (fst out) = 400%Z /\ snd out = w)
    /\ Forall (fun r =>
                 req_url r = ptz_target ip command
                 /\ req_method r = "GET"
                 /\ req_options r = ∅) new.
Proof.
  intros out. subst out. destruct (JS.falsy ip) eqn:I.
  - exists []. unfold Proxy.ptz. rewrite I. cbn.
    rewrite app_nil_r. repeat split; auto.
  - rewrite (ptz_state _ _ _ _ _ _ _ I).
    destruct (fetch_sent_cases
                (Proxy.url_of up us (ptz_target ip command))
                (mkOptions None None (Some (Proxy.CAMERA_USERNAME eu))
                   (Some (Proxy.CAMERA_PASSWORD ep)) ∅) w) as [S|[h S]];
      rewrite S; eexists; (split; [reflexivity|]);
      (split; [cbn; lia|]); (split; [discriminate|]);
      repeat constructor.
Qed.

Lemma or_else_truthy a b : b <> "" -> Proxy.or_else a b <> "".
Proof.
  intros B. unfold Proxy.or_else. destruct a as [[|c a]|]; cbn; try exact B.
  discriminate.
Qed.

Lemma or_else_falsy a : JS.falsy a = true -> Proxy.or_else a "" = "".
Proof. intros F. unfold Proxy.or_else. rewrite F. reflexivity. Qed.

Lemma or_else_given a b :
  JS.falsy a = false -> exists v, a = Some v /\ v <> "" /\ Proxy.or_else a b = v.
Proof.
  intros F. unfold Proxy.or_else. rewrite F.
  destruct a as [[|c a]|]; try discriminate F.
  eexists. split; [reflexivity|]. split; [discriminate|reflexivity].
Qed.

Lemma ptz_reply eu ep up us ip command w :
  JS.falsy ip = false ->
  fst (Proxy.ptz eu ep up us ip command w)
  = match fst (fetchWithDigest (Proxy.url_of up us (ptz_target ip command))
                 (mkOptions None None (Some (Proxy.CAMERA_USERNAME eu))
                    (Some (Proxy.CAMERA_PASSWORD ep)) ∅) w) with
    | Ok response =>
        if Proxy.ok response
        then Proxy.mkReply 200 (Proxy.Text (body response))
        else Proxy.mkReply (status response)
               (Proxy.ErrorJson ("Camera returned status "
                                 ++ pretty (status response)))
    | Throw message => Proxy.mkReply 500 (Proxy.ErrorJson message)
    end.
Proof.
  intros I. unfold Proxy.ptz. rewrite I. fold (ptz_target ip command).
  destruct (fetchWithDigest _ _ w) as [[r|m] w']; [|reflexivity].
  cbn [fst]. destruct (Proxy.ok r); reflexivity.
Qed.

(** X15: the username defaults to [root] and is never empty, but the
    password defaults to the empty string.  With [CAMERA_PASSWORD]
    unset or empty, a camera that answers the probe with 401 makes
    [GET /ptz] reply 500 after that one request, with the
    missing-credentials message for a Digest challenge and the
    protocol error otherwise. *)
Theorem ptz_without_password eu ep up us ip command w r1 :
  JS.falsy ep = true ->
  JS.falsy ip = false ->
  let req1 := mkRequest (ptz_target ip command) ∅ "GET" None in
  network w (sent w) req1 = Ok r1 ->
  status r1 = 401%Z ->
  let out := Proxy.ptz eu ep up us ip command w in
  Proxy.CAMERA_USERNAME eu <> ""
  /\ fst out
     = Proxy.mkReply 500
         (Proxy.ErrorJson
            match parseDigestHeader (headers r1 !! "www-authenticate") with
            | Ok _ => MissingCredentials
            | Throw _ => ProtocolError
            end)
  /\ sent (snd out) = (sent w ++ [req1])%list.
Proof.
  intros P I req1 N S out. subst out.
  split; [apply or_else_truthy; discriminate|].
  assert (JS.falsy (Some (Proxy.CAMERA_USERNAME eu))
          || JS.falsy (Some (Proxy.CAMERA_PASSWORD ep)) = true) as F.
  { unfold Proxy.CAMERA_PASSWORD. rewrite (or_else_falsy _ P).
    apply orb_true_r. }
  rewrite (ptz_reply _ _ _ _ _ _ _ I), (ptz_state _ _ _ _ _ _ _ I).
  rewrite (fetch_missing_credentials
             (Proxy.url_of up us (ptz_target ip command))
             (mkOptions None None (Some (Proxy.CAMERA_USERNAME eu))
                (Some (Proxy.CAMERA_PASSWORD ep)) ∅) w r1 N S F).
  cbn [fst snd]. split; [|reflexivity].
  destruct (parseDigestHeader (headers r1 !! "www-authenticate"))
    as [params|message] eqn:E; [reflexivity|].
  rewrite (parse_throws_protocol _ _ E). reflexivity.
Qed.

Lemma ptz_without_password_witness :
  fst (Proxy.ptz None None sample_pathname sample_search
         (Some "192.0.2.10") (Some "pan=1")
         (mkWorld always_401 [] counting 0))
  = Proxy.mkReply 500 (Proxy.ErrorJson MissingCredentials).
Proof.
  destruct (ptz_without_password None None sample_pathname sample_search
              (Some "192.0.2.10") (Some "pan=1")
              (mkWorld always_401 [] counting 0)
              (mkResponse 401 {["www-authenticate" := challenge_R_N]} "")
              eq_refl eq_refl eq_refl eq_refl) as (_ & H & _).
  rewrite H. vm_compute. reflexivity.
Defined.

(** X16: with a password configured, when the camera answers the probe
    with 401 and a Digest challenge, [GET /ptz] sends the retry with
    an Authorization header to the same URL and relays the answer to
    the retry: status 200 with the body for a 2xx answer, and
    otherwise the camera's own status (a second 401 included) with
    the message [Camera returned status <status>]. *)
Theorem ptz_relays_camera eu ep up us ip command w r1 h r2 :
  JS.falsy ep = false ->
  JS.falsy ip = false ->
  let req1 := mkRequest (ptz_target ip command) ∅ "GET" None in
  network w (sent w) req1 = Ok r1 ->
  status r1 = 401%Z ->
  headers r1 !! "www-authenticate" = Some h ->
  JS.startsWith h "Digest " = true ->
  (forall req2, network w (sent w ++ [req1]) req2 = Ok r2) ->
  let out := Proxy.ptz eu ep up us ip command w in
  fst out
  = (if Proxy.ok r2
     then Proxy.mkReply 200 (Proxy.Text (body r2))
     else Proxy.mkReply (status r2)
            (Proxy.ErrorJson ("Camera returned status "
                              ++ pretty (status r2))))
  /\ exists authorization,
       sent (snd out)
       = (sent w
          ++ [req1;
              mkRequest (ptz_target ip command) ∅ "GET"
                (Some {["authorization" := authorization]})])%list.
Proof.
  intros P I req1 N S H D N2 out. subst out.
  destruct (or_else_given ep "" P) as (pw & -> & Pw & Ep).
  pose proof (or_else_truthy eu "root") as Un.
  set (target := Proxy.url_of up us (ptz_target ip command)).
  set (options := mkOptions None None (Some (Proxy.CAMERA_USERNAME eu))
                    (Some (Proxy.CAMERA_PASSWORD (Some pw))) ∅).
  assert (exists authHeader w1,
             authenticate (collect (JS.slice_from h 7) ∅) "GET"
               (pathname target ++ search target)
               (Some (Proxy.CAMERA_USERNAME eu))
               (Some (Proxy.CAMERA_PASSWORD (Some pw)))
               (after_fetch (probe target options) w)
             = (Ok authHeader, w1)) as (authHeader & w1 & A).
  { rewrite authenticate_ok; [eauto| |].
    - apply Un. discriminate.
    - unfold Proxy.CAMERA_PASSWORD. rewrite Ep. exact Pw. }
  destruct (fetch_retried target options w r1
              (collect (JS.slice_from h 7) ∅) authHeader w1 N S) as [R Sn].
  { rewrite H. apply parse_digest, D. }
  { exact A. }
  rewrite (ptz_reply _ _ _ _ _ _ _ I), (ptz_state _ _ _ _ _ _ _ I).
  fold target options. rewrite R, Sn.
  change (probe target options) with req1. rewrite N2.
  split; [reflexivity|]. exists authHeader. reflexivity.
Qed.

Lemma ptz_relays_camera_witness :
  fst (Proxy.ptz None (Some "pass") sample_pathname sample_search
         (Some "192.0.2.10") (Some "pan=1")
         (mkWorld always_401 [] counting 0))
  = Proxy.mkReply 401 (Proxy.ErrorJson "Camera returned status 401").
Proof.
  destruct (ptz_relays_camera None (Some "pass") sample_pathname sample_search
              (Some "192.0.2.10") (Some "pan=1")
              (mkWorld always_401 [] counting 0)
              (mkResponse 401 {["www-authenticate" := challenge_R_N]} "")
              challenge_R_N
              (mkResponse 401 {["www-authenticate" := challenge_R_N]} "")
              eq_refl eq_refl eq_refl eq_refl eq_refl eq_refl
              (fun _ => eq_refl)) as (H & _).
  rewrite H. vm_compute. reflexivity.
Defined.

(** ** The credentials route *)

Lemma after_streams_count reads a :
  Proxy.credentials_routes (after_streams reads a)
  = Proxy.credentials_routes a + length (List.filter failed reads).
Proof.
  revert a. induction reads as [|r rs IH]; intros a; cbn; [lia|].
  change (fold_left _ rs ?x) with (after_streams rs x).
  rewrite IH. destruct r; cbn; lia.
Qed.

(** X17: the [/credentials] route is registered inside the [catch]
    branch of [GET /streams], once per failed read.  As long as every
    read of the configuration succeeded, [GET /credentials] is not
    found (404); after one failed read it answers 200 with the
    camera username and password in clear. *)
Theorem credentials_exposed_after_failure eu ep reads :
  let a := after_streams reads Proxy.boot in
  Proxy.credentials_routes a = length (List.filter failed reads)
  /\ (forallb (fun r => negb (failed r)) reads = true ->
      Proxy.credentials eu ep None a
      = Proxy.mkReply 404 Proxy.NotFound)
  /\ (existsb failed reads = true ->
      Proxy.credentials eu ep None a
      = Proxy.mkReply 200
          (Proxy.Credentials (Proxy.CAMERA_USERNAME eu)
             (Proxy.CAMERA_PASSWORD ep))).
Proof.
  intros a. subst a. pose proof (after_streams_count reads Proxy.boot) as C.
  cbn in C. split; [exact C|]. unfold Proxy.credentials. rewrite C.
  clear C. split; intros H.
  - assert (List.filter failed reads = []) as ->; [|reflexivity].
    induction reads as [|r rs IH]; [reflexivity|]. cbn in *.
    apply andb_prop in H. destruct H as [R H].
    destruct (failed r); [discriminate R|]. exact (IH H).
  - assert (exists n, length (List.filter failed reads) = S n) as [n ->];
      [|reflexivity].
    induction reads as [|r rs IH]; [discriminate H|]. cbn in *.
    destruct (failed r); cbn; [eauto|]. exact (IH H).
Qed.
